(** * skfem: element transforms and interior basis

    A shallow embedding of [skfem/element.py] and of
    [skfem/assembly/global_basis/interior_basis.py], and the properties of
    the element transforms (H1, vector-H1, H(div), H(curl), H2), of the
    orientation rules and of the integration weights.

    Layout of the development:
    - [Py]      exceptions and the error monad of the embedding;
    - [Scalar]  the arithmetic interface of array entries, with an exact
                instance (rationals) and an IEEE binary64 instance;
    - [Np]      the fragment of numpy the source uses: shapes, indexing,
                broadcasting, and [einsum] for the subscripts that occur;
    - the classes of [element.py], one group of definitions per class,
      [ElementH2] with its cache as explicit state;
    - [InteriorBasis.__init__];
    - the vocabulary of the statements and a two-triangle mesh of the
      unit square on which the definitions are run;
    - the lemmas and theorems, one section per subject. *)

From Stdlib Require Import String ZArith List Bool Lia.
From Stdlib Require Import QArith Qabs Qfield.
From Stdlib Require Import SpecFloat.
Import ListNotations.

Local Open Scope Z_scope.

(* ================================================================== *)
(** * Python exceptions and results *)
(* ================================================================== *)

Module Py.

(** The exceptions the embedded code can raise, by Python class. *)
Inductive exn : Type :=
| IndexError
| ValueError
| TypeError
| ZeroDivisionError
| LinAlgError
| NotImplementedError (msg : string)
| Exception (msg : string).

(** A call either returns a value or raises. *)
Inductive res (A : Type) : Type :=
| Ok (a : A)
| Raise (e : exn).

Arguments Ok {A} a.
Arguments Raise {A} e.

Definition bind {A B} (c : res A) (k : A -> res B) : res B :=
  match c with
  | Ok a => k a
  | Raise e => Raise e
  end.

Definition is_ok {A} (c : res A) : bool :=
  match c with Ok _ => true | Raise _ => false end.

Definition raises {A} (c : res A) : bool := negb (is_ok c).

(** [l[i]] on a Python sequence of length [n]: negative indices count
    from the end, anything else out of range raises [IndexError]. *)
Definition norm_index (n : nat) (i : Z) : res nat :=
  if (0 <=? i) && (i <? Z.of_nat n) then Ok (Z.to_nat i)
  else if (- Z.of_nat n <=? i) && (i <? 0) then Ok (Z.to_nat (Z.of_nat n + i))
  else Raise IndexError.

Definition list_getitem {A} (d : A) (l : list A) (i : Z) : res A :=
  bind (norm_index (List.length l) i) (fun k => Ok (nth k l d)).

(** [range(n)] *)
Definition range (n : nat) : list nat := seq 0 n.

(** Run [k] on every element of [l] in order; the first exception
    aborts the loop. *)
Fixpoint mapM {A B} (k : A -> res B) (l : list A) : res (list B) :=
  match l with
  | [] => Ok []
  | a :: l' =>
      bind (k a) (fun b => bind (mapM k l') (fun bs => Ok (b :: bs)))
  end.

(** A [for] loop threading an accumulator. *)
Fixpoint foldM {A B} (k : B -> A -> res B) (l : list A) (b : B) : res B :=
  match l with
  | [] => Ok b
  | a :: l' => bind (k b a) (foldM k l')
  end.

End Py.

Import Py.

Declare Scope py_scope.
Delimit Scope py_scope with py.
Notation "x <- c ;; k" := (Py.bind c (fun x => k))
  (at level 61, c at next level, right associativity) : py_scope.
Notation "' pat <- c ;; k" := (Py.bind c (fun x => match x with pat => k end))
  (at level 61, pat pattern, c at next level, right associativity) : py_scope.
Local Open Scope py_scope.

(* ================================================================== *)
(** * Scalars *)
(* ================================================================== *)

(** The arithmetic on array entries.  The source computes in float64; the
    definitions below use only this interface, so that every statement
    proved for an arbitrary instance holds for float64 as well as for
    exact arithmetic. *)
Class Scalar (num : Type) : Type := {
  fofZ : Z -> num;              (* conversion of a Python int *)
  fadd : num -> num -> num;
  fsub : num -> num -> num;
  fmul : num -> num -> num;
  fdiv : num -> num -> num;
  fneg : num -> num;
  fabs : num -> num
}.

(** Scalars with a not-a-number value ([np.nan]). *)
Class ScalarNaN (num : Type) : Type := {
  fnan : num
}.

(** Exact arithmetic on the rationals. *)
#[export] Instance Scalar_Q : Scalar Q := {
  fofZ := inject_Z;
  fadd := Qplus;
  fsub := Qminus;
  fmul := Qmult;
  fdiv := Qdiv;
  fneg := Qopp;
  fabs := Qabs
}.

(** IEEE 754 binary64, as specified by [SpecFloat]. *)
Module Float64.
Definition prec : Z := 53.
Definition emax : Z := 1024.
Definition t : Type := spec_float.
Definition of_Z (z : Z) : t := binary_normalize prec emax z 0 false.
Definition add : t -> t -> t := SFadd prec emax.
Definition sub : t -> t -> t := SFsub prec emax.
Definition mul : t -> t -> t := SFmul prec emax.
Definition div : t -> t -> t := SFdiv prec emax.
Definition neg : t -> t := SFopp.
Definition abs : t -> t := SFabs.
Definition nan : t := S754_nan.
Definition is_nan (x : t) : bool :=
  match x with S754_nan => true | _ => false end.
End Float64.

#[export] Instance Scalar_Float64 : Scalar Float64.t := {
  fofZ := Float64.of_Z;
  fadd := Float64.add;
  fsub := Float64.sub;
  fmul := Float64.mul;
  fdiv := Float64.div;
  fneg := Float64.neg;
  fabs := Float64.abs
}.

#[export] Instance ScalarNaN_Float64 : ScalarNaN Float64.t := {
  fnan := Float64.nan
}.

(* ================================================================== *)
(** * The numpy fragment *)
(* ================================================================== *)

Module Np.

(** An n-dimensional array: its shape and its entries by multi-index.
    Only entries at indices inside the shape are meaningful. *)
Record ndarray (A : Type) : Type := mk {
  shape : list nat;
  get : list nat -> A
}.
Arguments mk {A} shape get.
Arguments shape {A} n.
Arguments get {A} n ix.

Definition ndim {A} (a : ndarray A) : nat := List.length (shape a).

(** ** Literals *)

Definition of_list {A} (d : A) (l : list A) : ndarray A :=
  mk [List.length l]
     (fun ix => match ix with [i] => nth i l d | _ => d end).

Definition of_list2 {A} (d : A) (l : list (list A)) : ndarray A :=
  mk [List.length l; List.length (hd [] l)]
     (fun ix => match ix with [i; j] => nth j (nth i l []) d | _ => d end).

Definition full {A} (s : list nat) (v : A) : ndarray A := mk s (fun _ => v).

(** [np.arange(n)] *)
Definition arange (n : nat) : ndarray Z :=
  mk [n] (fun ix => Z.of_nat (hd 0%nat ix)).

(** All the multi-indices of a shape, in C order. *)
Fixpoint all_indices (s : list nat) : list (list nat) :=
  match s with
  | [] => [[]]
  | n :: s' => flat_map (fun i => map (cons i) (all_indices s')) (seq 0 n)
  end.

Definition to_list {A} (a : ndarray A) : list A :=
  map (get a) (all_indices (shape a)).

(** [ix] lies inside the shape [s]. *)
Fixpoint in_shape (s ix : list nat) : Prop :=
  match s, ix with
  | [], [] => True
  | n :: s', i :: ix' => (i < n)%nat /\ in_shape s' ix'
  | _, _ => False
  end.

(** ** Broadcasting *)

Definition bdim (a b : nat) : option nat :=
  if (a =? b)%nat then Some a
  else if (a =? 1)%nat then Some b
  else if (b =? 1)%nat then Some a
  else None.

(** Shapes are aligned on their last axis, hence the reversed lists. *)
Fixpoint bshape_rev (r1 r2 : list nat) : option (list nat) :=
  match r1, r2 with
  | [], r => Some r
  | r, [] => Some r
  | a :: r1', b :: r2' =>
      match bdim a b, bshape_rev r1' r2' with
      | Some d, Some r => Some (d :: r)
      | _, _ => None
      end
  end.

Definition broadcast_shapes (s1 s2 : list nat) : option (list nat) :=
  option_map (@rev nat) (bshape_rev (rev s1) (rev s2)).

(** An axis of length 1 is read at 0 whatever the index. *)
Definition pick (d i : nat) : nat := if (d =? 1)%nat then 0%nat else i.

Fixpoint bidx_rev (rs ri : list nat) : list nat :=
  match rs, ri with
  | d :: rs', i :: ri' => pick d i :: bidx_rev rs' ri'
  | _, _ => []
  end.

(** The index into an operand of shape [s] for the index [ix] of the
    broadcast result. *)
Definition bidx (s ix : list nat) : list nat :=
  rev (bidx_rev (rev s) (rev ix)).

Definition shape_eqb (s1 s2 : list nat) : bool :=
  if list_eq_dec Nat.eq_dec s1 s2 then true else false.

Definition amap {A B} (f : A -> B) (a : ndarray A) : ndarray B :=
  mk (shape a) (fun ix => f (get a ix)).

(** An elementwise binary operation on two arrays. *)
Definition map2 {A B C} (f : A -> B -> C) (a : ndarray A) (b : ndarray B)
  : res (ndarray C) :=
  match broadcast_shapes (shape a) (shape b) with
  | Some s =>
      Ok (mk s (fun ix => f (get a (bidx (shape a) ix))
                            (get b (bidx (shape b) ix))))
  | None => Raise ValueError
  end.

(** [np.broadcast_to(a, s)] *)
Definition broadcast_to {A} (a : ndarray A) (s : list nat)
  : res (ndarray A) :=
  match broadcast_shapes (shape a) s with
  | Some s' =>
      if shape_eqb s' s
      then Ok (mk s (fun ix => get a (bidx (shape a) ix)))
      else Raise ValueError
  | None => Raise ValueError
  end.

(** An in-place operation [a op= b]: the broadcast shape must be the
    shape of [a]. *)
Definition imap2 {A B} (f : A -> B -> A) (a : ndarray A) (b : ndarray B)
  : res (ndarray A) :=
  match broadcast_shapes (shape a) (shape b) with
  | Some s =>
      if shape_eqb s (shape a)
      then Ok (mk (shape a) (fun ix => f (get a ix)
                                         (get b (bidx (shape b) ix))))
      else Raise ValueError
  | None => Raise ValueError
  end.

(** ** Basic indexing: integers, [:] and [None] *)

Inductive item : Type := Int (i : Z) | All | NewAxis.
Inductive nitem : Type := NInt (k : nat) | NAll | NNew.

(** Integers are checked against the axis they index and normalised;
    more items than axes is an [IndexError]. *)
Fixpoint norm_items (items : list item) (s : list nat) : res (list nitem) :=
  match items with
  | [] => Ok []
  | Int i :: items' =>
      match s with
      | [] => Raise IndexError
      | n :: s' =>
          k <- norm_index n i ;;
          r <- norm_items items' s' ;;
          Ok (NInt k :: r)
      end
  | All :: items' =>
      match s with
      | [] => Raise IndexError
      | _ :: s' => r <- norm_items items' s' ;; Ok (NAll :: r)
      end
  | NewAxis :: items' => r <- norm_items items' s ;; Ok (NNew :: r)
  end.

Fixpoint view_shape (n : list nitem) (s : list nat) : list nat :=
  match n with
  | [] => s
  | NInt _ :: n' => view_shape n' (tl s)
  | NAll :: n' => hd 0%nat s :: view_shape n' (tl s)
  | NNew :: n' => 1%nat :: view_shape n' s
  end.

(** From an index of the view to the index of the entry it shows. *)
Fixpoint view_src (n : list nitem) (ix : list nat) : list nat :=
  match n with
  | [] => ix
  | NInt k :: n' => k :: view_src n' ix
  | NAll :: n' => hd 0%nat ix :: view_src n' (tl ix)
  | NNew :: n' => view_src n' (tl ix)
  end.

(** From an index of the array to the index in the view, when the view
    shows that entry. *)
Fixpoint src_view (n : list nitem) (ix : list nat) : option (list nat) :=
  match n with
  | [] => Some ix
  | NInt k :: n' =>
      match ix with
      | i :: ix' => if (i =? k)%nat then src_view n' ix' else None
      | [] => None
      end
  | NAll :: n' =>
      match ix with
      | i :: ix' => option_map (cons i) (src_view n' ix')
      | [] => None
      end
  | NNew :: n' => option_map (cons 0%nat) (src_view n' ix)
  end.

(** [a[items]] *)
Definition getitem {A} (a : ndarray A) (items : list item)
  : res (ndarray A) :=
  n <- norm_items items (shape a) ;;
  Ok (mk (view_shape n (shape a)) (fun ix => get a (view_src n ix))).

(** [a[items] = v]: the value is broadcast to the shape of the view.
    (numpy also drops extra leading axes of length 1 of [v]; no
    assignment of the source has such a value.) *)
Definition setitem {A} (a : ndarray A) (items : list item) (v : ndarray A)
  : res (ndarray A) :=
  n <- norm_items items (shape a) ;;
  match broadcast_shapes (shape v) (view_shape n (shape a)) with
  | Some s' =>
      if shape_eqb s' (view_shape n (shape a))
      then Ok (mk (shape a)
                  (fun ix => match src_view n ix with
                             | Some jx => get v (bidx (shape v) jx)
                             | None => get a ix
                             end))
      else Raise ValueError
  | None => Raise ValueError
  end.

(** ** Indexing by an integer array *)

Definition in_bounds (n : nat) (z : Z) : bool :=
  (- Z.of_nat n <=? z) && (z <? Z.of_nat n).

Definition wrap (n : nat) (z : Z) : nat :=
  Z.to_nat (if z <? 0 then Z.of_nat n + z else z).

Definition all_in_bounds (n : nat) (idx : ndarray Z) : bool :=
  forallb (fun jx => in_bounds n (get idx jx)) (all_indices (shape idx)).

(** [a[i, idx]] for an integer [i] and an integer array [idx]. *)
Definition take_row {A} (a : ndarray A) (i : Z) (idx : ndarray Z)
  : res (ndarray A) :=
  match shape a with
  | n0 :: n1 :: rest =>
      k <- norm_index n0 i ;;
      if all_in_bounds n1 idx
      then Ok (mk (shape idx ++ rest)
                  (fun ix => get a (k :: wrap n1 (get idx (firstn (ndim idx) ix))
                                      :: skipn (ndim idx) ix)))
      else Raise IndexError
  | _ => Raise IndexError
  end.

(** [a[:, idx]] for an integer array [idx]. *)
Definition take_cols {A} (a : ndarray A) (idx : ndarray Z)
  : res (ndarray A) :=
  match shape a with
  | n0 :: n1 :: rest =>
      if all_in_bounds n1 idx
      then Ok (mk (n0 :: shape idx ++ rest)
                  (fun ix => get a (hd 0%nat ix
                                      :: wrap n1 (get idx (firstn (ndim idx) (tl ix)))
                                      :: skipn (ndim idx) (tl ix))))
      else Raise IndexError
  | _ => Raise IndexError
  end.

(** ** Stacking and tiling *)

(** [np.array([a0, a1, ...])] of arrays of one shape. *)
Definition array {A} (d : A) (l : list (ndarray A)) : res (ndarray A) :=
  match l with
  | [] => Ok (mk [0%nat] (fun _ => d))
  | a0 :: _ =>
      if forallb (fun a => shape_eqb (shape a) (shape a0)) l
      then Ok (mk (List.length l :: shape a0)
                  (fun ix => get (nth (hd 0%nat ix) l a0) (tl ix)))
      else Raise ValueError
  end.

(** [np.tile(a, (n, 1))]: [a] is first promoted to two axes, then its
    last but one axis is repeated [n] times. *)
Definition tile_rows {A} (a : ndarray A) (n : nat) : ndarray A :=
  match rev (shape a) with
  | [] => mk [n; 1%nat] (fun _ => get a [])
  | [l] => mk [n; l] (fun ix => get a (tl ix))
  | l :: r :: pre =>
      mk (rev pre ++ [(n * r)%nat; l])
         (fun ix =>
            match rev ix with
            | j :: i :: rpre => get a (rev rpre ++ [(i mod r)%nat; j])
            | _ => get a ix
            end)
  end.

End Np.

Import Np.

(* ================================================================== *)
(** * Arrays of scalars, meshes and mappings *)
(* ================================================================== *)

Section Arrays.

Context {num : Type} `{Scalar num}.

Definition farray : Type := ndarray num.

(** Left-to-right sum starting from zero. *)
Definition fsum (l : list num) : num := fold_left fadd l (fofZ 0).

(** [np.zeros(s)] and [np.ones(s)] *)
Definition zeros (s : list nat) : farray := full s (fofZ 0).
Definition ones (s : list nat) : farray := full s (fofZ 1).

(** An integer array used where floats are expected. *)
Definition as_float (a : ndarray Z) : farray := amap fofZ a.

(** [t.shape[k]] *)
Definition shape_at {A} (a : ndarray A) (k : nat) : res nat :=
  match nth_error (shape a) k with
  | Some n => Ok n
  | None => Raise IndexError
  end.

(** Scalar-with-array arithmetic, the scalar being a Python int. *)
Definition sadd (c : Z) (a : farray) : farray := amap (fadd (fofZ c)) a.
Definition ssub (c : Z) (a : farray) : farray := amap (fsub (fofZ c)) a.
Definition smul (c : Z) (a : farray) : farray := amap (fmul (fofZ c)) a.
Definition sdiv (c : Z) (a : farray) : farray := amap (fdiv (fofZ c)) a.
Definition subs (a : farray) (c : Z) : farray :=
  amap (fun v => fsub v (fofZ c)) a.
Definition aneg (a : farray) : farray := amap fneg a.
Definition aabs (a : farray) : farray := amap fabs a.

(** Float literals of the source: [0.25], [0.5]; [x/4.], [x/2.]. *)
Definition lit_quarter : num := fdiv (fofZ 1) (fofZ 4).
Definition lit_half : num := fdiv (fofZ 1) (fofZ 2).
Definition fmuls (c : num) (a : farray) : farray := amap (fmul c) a.
Definition divs (a : farray) (c : Z) : farray :=
  amap (fun v => fdiv v (fofZ c)) a.
(** [x**2] *)
Definition asquare (a : farray) : farray := amap (fun v => fmul v v) a.

(** Array-with-array arithmetic, with broadcasting. *)
Definition aadd (a b : farray) : res farray := map2 fadd a b.
Definition asub (a b : farray) : res farray := map2 fsub a b.
Definition amul (a b : farray) : res farray := map2 fmul a b.
Definition adiv (a b : farray) : res farray := map2 fdiv a b.

(** ** einsum

    Operands that carry one label on axes of different lengths are
    broadcast when one of the lengths is 1, and refused otherwise. *)

Definition bdim3 (a b c : nat) : option nat :=
  match bdim a b with
  | Some d => bdim d c
  | None => None
  end.

(** [np.einsum('ijkl,il->jkl', a, b)] *)
Definition einsum_ijkl_il_jkl (a b : farray) : res farray :=
  match shape a, shape b with
  | [ai; aj; ak; al], [bi; bl] =>
      match bdim ai bi, bdim al bl with
      | Some ni, Some nl =>
          Ok (mk [aj; ak; nl]
                (fun ix =>
                   match ix with
                   | [j; k; l] =>
                       fsum (map (fun i =>
                                    fmul (get a [pick ai i; j; k; pick al l])
                                         (get b [pick bi i; pick bl l]))
                                 (seq 0 ni))
                   | _ => fofZ 0
                   end))
      | _, _ => Raise ValueError
      end
  | _, _ => Raise ValueError
  end.

(** [np.einsum('ijkl,ikl->jkl', a, b)] *)
Definition einsum_ijkl_ikl_jkl (a b : farray) : res farray :=
  match shape a, shape b with
  | [ai; aj; ak; al], [bi; bk; bl] =>
      match bdim ai bi, bdim ak bk, bdim al bl with
      | Some ni, Some nk, Some nl =>
          Ok (mk [aj; nk; nl]
                (fun ix =>
                   match ix with
                   | [j; k; l] =>
                       fsum (map (fun i =>
                                    fmul (get a [pick ai i; j; pick ak k; pick al l])
                                         (get b [pick bi i; pick bk k; pick bl l]))
                                 (seq 0 ni))
                   | _ => fofZ 0
                   end))
      | _, _, _ => Raise ValueError
      end
  | _, _ => Raise ValueError
  end.

(** [np.einsum('ijkl,jl,kl->ikl', a, b, c)] *)
Definition einsum_ijkl_jl_kl_ikl (a b c : farray) : res farray :=
  match shape a, shape b, shape c with
  | [ai; aj; ak; al], [bj; bl], [ck; cl] =>
      match bdim aj bj, bdim ak ck, bdim3 al bl cl with
      | Some nj, Some nk, Some nl =>
          Ok (mk [ai; nk; nl]
                (fun ix =>
                   match ix with
                   | [i; k; l] =>
                       fsum (map (fun j =>
                                    fmul (fmul (get a [i; pick aj j; pick ak k; pick al l])
                                               (get b [pick bj j; pick bl l]))
                                         (get c [pick ck k; pick cl l]))
                                 (seq 0 nj))
                   | _ => fofZ 0
                   end))
      | _, _, _ => Raise ValueError
      end
  | _, _, _ => Raise ValueError
  end.

(** [np.einsum('ijkl,il,k->jkl', a, b, c)] *)
Definition einsum_ijkl_il_k_jkl (a b c : farray) : res farray :=
  match shape a, shape b, shape c with
  | [ai; aj; ak; al], [bi; bl], [ck] =>
      match bdim ai bi, bdim ak ck, bdim al bl with
      | Some ni, Some nk, Some nl =>
          Ok (mk [aj; nk; nl]
                (fun ix =>
                   match ix with
                   | [j; k; l] =>
                       fsum (map (fun i =>
                                    fmul (fmul (get a [pick ai i; j; pick ak k; pick al l])
                                               (get b [pick bi i; pick bl l]))
                                         (get c [pick ck k]))
                                 (seq 0 ni))
                   | _ => fofZ 0
                   end))
      | _, _, _ => Raise ValueError
      end
  | _, _, _ => Raise ValueError
  end.

(** ** The collaborators of the element classes *)

(** The mesh: vertex coordinates [p], element-to-vertex connectivity
    [t] (one column per element), element-to-face table [t2f] and
    face-to-element table [f2t]. *)
Record Mesh : Type := {
  mesh_p : farray;
  mesh_t : ndarray Z;
  mesh_t2f : ndarray Z;
  mesh_f2t : ndarray Z
}.

(** Element subsets: [None] or an integer array. *)
Definition tind_t : Type := option (ndarray Z).

(** The mapping: its mesh and the four batched evaluations, each of
    reference points and an element subset. *)
Record Mapping : Type := {
  mapping_mesh : Mesh;
  mapping_F : farray -> tind_t -> res farray;
  mapping_DF : farray -> tind_t -> res farray;
  mapping_invDF : farray -> tind_t -> res farray;
  mapping_detDF : farray -> tind_t -> res farray
}.

(** What a [gbasis] call returns: the pair (value, derivative), or
    Python's [None] when the body falls off its end. *)
Definition basis_t : Type := option (farray * farray).

Definition lbasis_t : Type := farray -> Z -> res (farray * farray).
Definition gbasis_t : Type := Mapping -> farray -> Z -> tind_t -> res basis_t.

(** [phi, dphi = r] *)
Definition unpack (r : basis_t) : res (farray * farray) :=
  match r with
  | Some p => Ok p
  | None => Raise TypeError
  end.

End Arrays.

Arguments Mesh num : clear implicits.
Arguments Mapping num : clear implicits.
Arguments farray num : clear implicits.
Arguments basis_t num : clear implicits.
Arguments lbasis_t num : clear implicits.
Arguments gbasis_t num : clear implicits.

(* ================================================================== *)
(** * element.py: the transform classes *)
(* ================================================================== *)

Section Elements.

Context {num : Type} `{Scalar num}.

Local Abbreviation farray := (farray num).
Local Abbreviation Mapping := (Mapping num).
Local Abbreviation basis_t := (basis_t num).
Local Abbreviation lbasis_t := (lbasis_t num).
Local Abbreviation gbasis_t := (gbasis_t num).

(** ** class Element *)

(** [Element.orient]: all signs are 1. *)
Definition Element_orient (mapping : Mapping) (i : Z) (tind : tind_t)
  : res (ndarray Z) :=
  match tind with
  | None =>
      r <- getitem (mesh_t (mapping_mesh mapping)) [Int 0; All] ;;
      Ok (amap (fun z => 1 + 0 * z) r)
  | Some ti => Ok (amap (fun z => 1 + 0 * z) ti)
  end.

(** An element object as the transforms see it: the class attributes
    and the [gbasis] method. *)
Record Element : Type := {
  n_dofs : Z;
  f_dofs : Z;
  i_dofs : Z;
  e_dofs : Z;
  dim : Z;
  maxdeg : Z;
  gbasis : gbasis_t
}.

(** ** class ElementH1 *)

Definition ElementH1_lbasis : lbasis_t :=
  fun _ _ => Raise (Exception "ElementH1 lbasis method not found.").

Definition ElementH1_gbasis (lbasis : lbasis_t) : gbasis_t :=
  fun mapping X i tind =>
    '(phi, dphi) <- lbasis X i ;;
    invDF <- mapping_invDF mapping X tind ;;
    if (ndim X =? 2)%nat then
      n2 <- shape_at invDF 2 ;;
      n3 <- shape_at invDF 3 ;;
      u <- broadcast_to phi [n2; n3] ;;
      du <- einsum_ijkl_il_jkl invDF dphi ;;
      Ok (Some (u, du))
    else if (ndim X =? 3)%nat then
      n2 <- shape_at invDF 2 ;;
      n3 <- shape_at invDF 3 ;;
      u <- broadcast_to phi [n2; n3] ;;
      du <- einsum_ijkl_ikl_jkl invDF dphi ;;
      Ok (Some (u, du))
    else Ok None.

(** ** class ElementVectorH1 *)

(** [int(np.floor(float(i)/float(dim)))]: the floor of the quotient,
    which the float computation yields exactly for operands below
    2^53; a zero divisor raises. *)
Definition floor_div (i d : Z) : res Z :=
  if d =? 0 then Raise ZeroDivisionError else Ok (i / d).

(** [np.zeros((d,) + s)] for a Python int [d]. *)
Definition zeros_stack (d : Z) (s : list nat) : res farray :=
  if d <? 0 then Raise ValueError else Ok (zeros (Z.to_nat d :: s)).

Definition ElementVectorH1_gbasis (elem : Element) : gbasis_t :=
  fun mapping X i tind =>
    ind <- floor_div i (dim elem) ;;
    let n := i - dim elem * ind in
    r <- gbasis elem mapping X ind tind ;;
    '(phi, dphi) <- unpack r ;;
    u <- zeros_stack (dim elem) (shape phi) ;;
    du <- zeros_stack (dim elem) (shape dphi) ;;
    u <- setitem u [Int n] phi ;;
    du <- setitem du [Int n] dphi ;;
    Ok (Some (u, du)).

(** [ElementVectorH1.__init__] *)
Definition ElementVectorH1 (elem : Element) : Element := {|
  dim := dim elem;
  n_dofs := n_dofs elem * dim elem;
  f_dofs := f_dofs elem * dim elem;
  i_dofs := i_dofs elem * dim elem;
  e_dofs := e_dofs elem * dim elem;
  maxdeg := maxdeg elem;
  gbasis := ElementVectorH1_gbasis elem
|}.

(** ** class ElementHdiv *)

Definition Z_of_bool (b : bool) : Z := if b then 1 else 0.

(** [ElementHdiv.orient]; the argument [tind] is not used. *)
Definition ElementHdiv_orient (mapping : Mapping) (i : Z) (tind : tind_t)
  : res (ndarray Z) :=
  let mesh := mapping_mesh mapping in
  faces <- getitem (mesh_t2f mesh) [Int i; All] ;;
  first <- take_row (mesh_f2t mesh) 0 faces ;;
  nt <- shape_at (mesh_t mesh) 1 ;;
  own <- map2 Z.eqb first (arange nt) ;;
  Ok (amap (fun b => -1 + 2 * Z_of_bool b) own).

Definition ElementHdiv_lbasis : lbasis_t :=
  fun _ _ => Raise (Exception "ElementHdiv lbasis method not found.").

Definition ElementHdiv_gbasis (lbasis : lbasis_t) : gbasis_t :=
  fun mapping X i tind =>
    '(phi, dphi) <- lbasis X i ;;
    DF <- mapping_DF mapping X tind ;;
    detDF <- mapping_detDF mapping X tind ;;
    orient <- ElementHdiv_orient mapping i tind ;;
    o1 <- getitem orient [All; NewAxis] ;;
    c <- amul (sdiv 1 (aabs detDF)) (as_float o1) ;;
    u <- einsum_ijkl_jl_kl_ikl DF phi c ;;
    o2 <- getitem orient [All; NewAxis] ;;
    m <- amul (aabs detDF) (as_float o2) ;;
    du <- adiv dphi m ;;
    Ok (Some (u, du)).

(** ** class ElementHcurl *)

(** [ElementHcurl.orient]; the argument [tind] is not used. *)
Definition ElementHcurl_orient (mapping : Mapping) (i : Z) (tind : tind_t)
  : res (ndarray Z) :=
  let mesh := mapping_mesh mapping in
  t1 <- list_getitem 0 [0; 1; 0; 0; 1; 2] i ;;
  t2 <- list_getitem 0 [1; 2; 2; 3; 3; 3] i ;;
  a <- getitem (mesh_t mesh) [Int t1; All] ;;
  b <- getitem (mesh_t mesh) [Int t2; All] ;;
  gt <- map2 Z.gtb a b ;;
  Ok (amap (fun c => 1 - 2 * Z_of_bool c) gt).

Definition ElementHcurl_lbasis : lbasis_t :=
  fun _ _ => Raise (Exception "ElementHcurl lbasis method not found.").

Definition ElementHcurl_gbasis (lbasis : lbasis_t) : gbasis_t :=
  fun mapping X i tind =>
    '(phi, dphi) <- lbasis X i ;;
    DF <- mapping_DF mapping X tind ;;
    invDF <- mapping_invDF mapping X tind ;;
    detDF <- mapping_detDF mapping X tind ;;
    orient <- ElementHcurl_orient mapping i tind ;;
    u <- einsum_ijkl_il_k_jkl invDF phi (as_float orient) ;;
    o1 <- getitem orient [All; NewAxis] ;;
    c <- amul (sdiv 1 detDF) (as_float o1) ;;
    du <- einsum_ijkl_jl_kl_ikl DF dphi c ;;
    Ok (Some (u, du)).

End Elements.

(* ================================================================== *)
(** * element.py: the catalog of concrete elements *)
(* ================================================================== *)

Section Catalog.

Context {num : Type} `{Scalar num}.

Local Abbreviation farray := (farray num).
Local Abbreviation lbasis_t := (lbasis_t num).

(** Array expressions: each operand may have raised. *)
Definition lift1 (f : farray -> farray) (a : res farray) : res farray :=
  a' <- a ;; Ok (f a').

Definition lift2 (op : farray -> farray -> res farray) (a b : res farray)
  : res farray :=
  a' <- a ;; b' <- b ;; op a' b'.

(** [np.array([e0, e1, ...])] *)
Definition stack (l : list (res farray)) : res farray :=
  rows <- mapM (fun e => e) l ;; array (fofZ 0) rows.

Local Notation "a [*] b" := (lift2 amul a b) (at level 40, left associativity).
Local Notation "a [+] b" := (lift2 aadd a b) (at level 50, left associativity).
Local Notation "a [-] b" := (lift2 asub a b) (at level 50, left associativity).
Local Notation "c +: a" := (sadd c a) (at level 45, right associativity).
Local Notation "c -: a" := (ssub c a) (at level 45, right associativity).
Local Notation "c *: a" := (smul c a) (at level 35, right associativity).
Local Notation "a :- c" := (subs a c) (at level 45).
Local Notation "a ^2" := (asquare a) (at level 1, format "a ^2").
Local Notation "! a" := (@Ok farray a) (at level 36).

Definition pair_of (phi dphi : res farray) : res (farray * farray) :=
  p <- phi ;; d <- dphi ;; Ok (p, d).

(** ** Triangular *)

Definition ElementTriP1_lbasis : lbasis_t := fun X i =>
  x <- getitem X [Int 0; All] ;;
  y <- getitem X [Int 1; All] ;;
  if i =? 0 then
    pair_of (!(1 -: x) [-] !y)
            (stack [!((-1) +: 0 *: x); !((-1) +: 0 *: x)])
  else if i =? 1 then
    pair_of (!x) (stack [!(1 +: 0 *: x); !(0 *: x)])
  else if i =? 2 then
    pair_of (!y) (stack [!(0 *: x); !(1 +: 0 *: x)])
  else Raise (Exception "!").

Definition ElementTriP0_lbasis : lbasis_t := fun X i =>
  x0 <- getitem X [Int 0; All] ;;
  Ok (1 +: 0 *: x0, 0 *: X).

Definition ElementTriRT0_lbasis : lbasis_t := fun X i =>
  x <- getitem X [Int 0; All] ;;
  y <- getitem X [Int 1; All] ;;
  if i =? 0 then
    pair_of (stack [!x; !(y :- 1)]) (!(2 +: 0 *: x))
  else if i =? 1 then
    pair_of (stack [!x; !y]) (!(2 +: 0 *: x))
  else if i =? 2 then
    pair_of (stack [!(x :- 1); !y]) (!(2 +: 0 *: x))
  else Raise (Exception "!").

(** ** Quadrilateral *)

Definition ElementQ1_lbasis : lbasis_t := fun X i =>
  x <- getitem X [Int 0; All] ;;
  y <- getitem X [Int 1; All] ;;
  let q := fmuls lit_quarter in
  if i =? 0 then
    pair_of (!(q (1 -: x)) [*] !(1 -: y))
            (stack [!(q ((-1) +: y)); !(q ((-1) +: x))])
  else if i =? 1 then
    pair_of (!(q (1 +: x)) [*] !(1 -: y))
            (stack [!(q (1 -: y)); !(q ((-1) -: x))])
  else if i =? 2 then
    pair_of (!(q (1 +: x)) [*] !(1 +: y))
            (stack [!(q (1 +: y)); !(q (1 +: x))])
  else if i =? 3 then
    pair_of (!(q (1 -: x)) [*] !(1 +: y))
            (stack [!(q ((-1) -: y)); !(q (1 -: x))])
  else Raise (Exception "!").

Definition ElementQ2_lbasis : lbasis_t := fun X i =>
  x <- getitem X [Int 0; All] ;;
  y <- getitem X [Int 1; All] ;;
  let q e := lift1 (fmuls lit_quarter) e in
  let h e := lift1 (fmuls lit_half) e in
  let d4 e := lift1 (fun a => divs a 4) e in
  let d2 e := lift1 (fun a => divs a 2) e in
  let neg e := lift1 aneg e in
  if i =? 0 then
    pair_of (q (!(x^2) [-] !x) [*] (!(y^2) [-] !y))
            (stack [d4 (!((-1) +: 2 *: x) [*] !((-1) +: y) [*] !y);
                    d4 (!((-1) +: x) [*] !x [*] !((-1) +: 2 *: y))])
  else if i =? 1 then
    pair_of (q (!(x^2) [+] !x) [*] (!(y^2) [-] !y))
            (stack [d4 (!(1 +: 2 *: x) [*] !((-1) +: y) [*] !y);
                    d4 (!x [*] !(1 +: x) [*] !((-1) +: 2 *: y))])
  else if i =? 2 then
    pair_of (q (!(x^2) [+] !x) [*] (!(y^2) [+] !y))
            (stack [d4 (!(1 +: 2 *: x) [*] !y [*] !(1 +: y));
                    d4 (!x [*] !(1 +: x) [*] !(1 +: 2 *: y))])
  else if i =? 3 then
    pair_of (q (!(x^2) [-] !x) [*] (!(y^2) [+] !y))
            (stack [d4 (!((-1) +: 2 *: x) [*] !y [*] !(1 +: y));
                    d4 (!((-1) +: x) [*] !x [*] !(1 +: 2 *: y))])
  else if i =? 4 then
    pair_of (h (!(y^2) [-] !y) [*] !(1 -: x^2))
            (stack [neg (!x [*] !((-1) +: y) [*] !y);
                    d2 (neg (!((-1) +: x^2) [*] !((-1) +: 2 *: y)))])
  else if i =? 5 then
    pair_of (h (!(x^2) [+] !x) [*] !(1 -: y^2))
            (stack [d2 (neg (!(1 +: 2 *: x) [*] !((-1) +: y^2)));
                    neg (!x [*] !(1 +: x) [*] !y)])
  else if i =? 6 then
    pair_of (h (!(y^2) [+] !y) [*] !(1 -: x^2))
            (stack [neg (!x [*] !y [*] !(1 +: y));
                    d2 (neg (!((-1) +: x^2) [*] !(1 +: 2 *: y)))])
  else if i =? 7 then
    pair_of (h (!(x^2) [-] !x) [*] !(1 -: y^2))
            (stack [d2 (neg (!((-1) +: 2 *: x) [*] !((-1) +: y^2)));
                    neg (!((-1) +: x) [*] !x [*] !y)])
  else if i =? 8 then
    pair_of (!(1 -: x^2) [*] !(1 -: y^2))
            (stack [!(2 *: x) [*] !((-1) +: y^2);
                    !(2 *: ((-1) +: x^2)) [*] !y])
  else Raise (Exception "!").

(** ** Tetrahedral *)

Definition ElementTetP0_lbasis : lbasis_t := fun X i =>
  x0 <- getitem X [Int 0; All] ;;
  Ok (1 +: 0 *: x0, 0 *: X).

Definition ElementTetRT0_lbasis : lbasis_t := fun X i =>
  x <- getitem X [Int 0; All] ;;
  y <- getitem X [Int 1; All] ;;
  z <- getitem X [Int 2; All] ;;
  if i =? 0 then
    pair_of (stack [!x; !y; !(z :- 1)]) (!(3 +: 0 *: x))
  else if i =? 1 then
    pair_of (stack [!x; !(y :- 1); !z]) (!(3 +: 0 *: x))
  else if i =? 2 then
    pair_of (stack [!(x :- 1); !y; !z]) (!(3 +: 0 *: x))
  else if i =? 3 then
    pair_of (stack [!x; !y; !z]) (!(3 +: 0 *: x))
  else Raise (Exception "!").

Definition ElementTetN0_lbasis : lbasis_t := fun X i =>
  x <- getitem X [Int 0; All] ;;
  y <- getitem X [Int 1; All] ;;
  z <- getitem X [Int 2; All] ;;
  if i =? 0 then
    pair_of (stack [!(1 -: z) [-] !y; !x; !x])
            (stack [!(0 *: x); !((-2) +: 0 *: x); !(2 +: 0 *: x)])
  else if i =? 1 then
    pair_of (stack [!(aneg y); !x; !(0 *: z)])
            (stack [!(0 *: x); !(0 *: x); !(2 +: 0 *: x)])
  else if i =? 2 then
    pair_of (stack [!y; !(1 -: z) [-] !x; !y])
            (stack [!(2 +: 0 *: x); !(0 *: x); !((-2) +: 0 *: x)])
  else if i =? 3 then
    pair_of (stack [!z; !z; !(1 -: x) [-] !y])
            (stack [!((-2) +: 0 *: x); !(2 +: 0 *: x); !(0 *: x)])
  else if i =? 4 then
    pair_of (stack [!(aneg z); !(0 *: y); !x])
            (stack [!(0 *: x); !((-2) +: 0 *: x); !(0 *: x)])
  else if i =? 5 then
    pair_of (stack [!(0 *: x); !(aneg z); !y])
            (stack [!(2 +: 0 *: x); !(0 *: x); !(0 *: x)])
  else Raise (Exception "!").

(** ** The element objects, with their class attributes *)

Definition element_of (n f i e : Z) (d deg : Z) (g : gbasis_t num)
  : Element := {|
  n_dofs := n; f_dofs := f; i_dofs := i; e_dofs := e;
  dim := d; maxdeg := deg; gbasis := g
|}.

Definition ElementTriP1 : Element :=
  element_of 1 0 0 0 2 1 (ElementH1_gbasis ElementTriP1_lbasis).
Definition ElementTriP0 : Element :=
  element_of 0 0 1 0 2 0 (ElementH1_gbasis ElementTriP0_lbasis).
Definition ElementTriRT0 : Element :=
  element_of 0 1 0 0 2 1 (ElementHdiv_gbasis ElementTriRT0_lbasis).
Definition ElementQ1 : Element :=
  element_of 1 0 0 0 2 2 (ElementH1_gbasis ElementQ1_lbasis).
Definition ElementQ2 : Element :=
  element_of 1 1 1 0 2 3 (ElementH1_gbasis ElementQ2_lbasis).
Definition ElementTetP0 : Element :=
  element_of 0 0 1 0 3 0 (ElementH1_gbasis ElementTetP0_lbasis).
Definition ElementTetRT0 : Element :=
  element_of 0 1 0 0 3 1 (ElementHdiv_gbasis ElementTetRT0_lbasis).
Definition ElementTetN0 : Element :=
  element_of 0 0 0 1 3 1 (ElementHcurl_gbasis ElementTetN0_lbasis).

End Catalog.

(* ================================================================== *)
(** * element.py: class ElementH2 *)
(* ================================================================== *)

Section ElementH2.

Context {num : Type} `{Scalar num} `{ScalarNaN num}.

Local Abbreviation farray := (farray num).
Local Abbreviation Mesh := (Mesh num).
Local Abbreviation Mapping := (Mapping num).
Local Abbreviation basis_t := (basis_t num).

(** The two routines of [np.linalg] the class calls: [inv] on a stack of
    square matrices and [norm(., axis=0)]. *)
Variable linalg_inv : farray -> res farray.
Variable linalg_norm0 : farray -> res farray.

(** ** The power basis

    [_pbasis_init] differentiates the monomials [x**i*y**j] with sympy
    and turns each result into a numpy function.  A result is again a
    monomial [c*x**a*y**b], kept here by its coefficient and exponents. *)

Record monomial : Type := { coef : Z; ex : nat; ey : nat }.

Definition diff_x (m : monomial) : monomial :=
  match ex m with
  | O => {| coef := 0; ex := 0; ey := 0 |}
  | S a => {| coef := coef m * Z.of_nat (S a); ex := a; ey := ey m |}
  end.

Definition diff_y (m : monomial) : monomial :=
  match ey m with
  | O => {| coef := 0; ex := 0; ey := 0 |}
  | S b => {| coef := coef m * Z.of_nat (S b); ex := ex m; ey := b |}
  end.

Fixpoint fpow (v : num) (n : nat) : num :=
  match n with
  | O => fofZ 1
  | S O => v
  | S n' => fmul (fpow v n') v
  end.

Definition apow (a : farray) (n : nat) : farray :=
  match n with
  | S O => a
  | _ => amap (fun v => fpow v n) a
  end.

Definition scale (c : Z) (a : farray) : farray :=
  if c =? 1 then a else smul c a.

(** A power-basis function of two arrays.  A constant expression is
    replaced by [const*np.ones(X.shape)], as the source does after
    building each list. *)
Definition pfun : Type := farray -> farray -> res farray.

Definition lambdify (m : monomial) : pfun := fun X Y =>
  match ex m, ey m with
  | O, O => Ok (smul (coef m) (ones (shape X)))
  | O, b => if coef m =? 0 then Ok (smul 0 (ones (shape X)))
            else Ok (scale (coef m) (apow Y b))
  | a, O => if coef m =? 0 then Ok (smul 0 (ones (shape X)))
            else Ok (scale (coef m) (apow X a))
  | a, b => if coef m =? 0 then Ok (smul 0 (ones (shape X)))
            else amul (scale (coef m) (apow X a)) (apow Y b)
  end.

(** [[x**i*y**j for i in R for j in R if i+j<=N]] with [R = range(N+1)] *)
Definition monomials (N : Z) : list monomial :=
  let R := range (Z.to_nat (N + 1)) in
  flat_map (fun i =>
              flat_map (fun j =>
                          if (Z.of_nat i + Z.of_nat j <=? N)
                          then [{| coef := 1; ex := i; ey := j |}]
                          else [])
                       R)
           R.

(** The six attributes [_pbasis], [_pbasisdx], ... set by
    [_pbasis_init]. *)
Record power_basis : Type := {
  _pbasis : list pfun;
  _pbasisdx : list pfun;
  _pbasisdy : list pfun;
  _pbasisdxx : list pfun;
  _pbasisdyy : list pfun;
  _pbasisdxy : list pfun
}.

(** [_pbasis_init(N)].  Its guard looks for an attribute named
    ['_pbasis' + str(N)], which nothing assigns, so the lists are built
    anew by every call; they depend on [N] only. *)
Definition _pbasis_init (N : Z) : power_basis :=
  let ms := monomials N in
  {| _pbasis := map lambdify ms;
     _pbasisdx := map (fun m => lambdify (diff_x m)) ms;
     _pbasisdy := map (fun m => lambdify (diff_y m)) ms;
     _pbasisdxx := map (fun m => lambdify (diff_x (diff_x m))) ms;
     _pbasisdyy := map (fun m => lambdify (diff_y (diff_y m))) ms;
     _pbasisdxy := map (fun m => lambdify (diff_y (diff_x m))) ms |}.

Definition pfun_error : pfun := fun _ _ => Raise IndexError.

(** [l[k]] on a list of functions, [k] being a loop counter. *)
Definition pget (l : list pfun) (k : nat) : pfun := nth k l pfun_error.

(** A call of [f] on the unpacked array [a]: the rows of [a] are the
    arguments, and [f] takes two. *)
Definition call_rows (f : pfun) (a : farray) : res farray :=
  match shape a with
  | [] => Raise TypeError
  | n :: _ =>
      if (n =? 2)%nat then
        a0 <- getitem a [Int 0] ;;
        a1 <- getitem a [Int 1] ;;
        f a0 a1
      else Raise TypeError
  end.

(** The DOF functionals of a subclass:
    [gdof(u, du, ddu, v, e, n, i)]. *)
Definition gdof_t : Type :=
  pfun -> list pfun -> list pfun -> farray -> farray -> farray -> Z
  -> res farray.

(** An [ElementH2] instance: the class attributes of the subclass, its
    [gdof], and the cache [V]. *)
Record ElementH2 : Type := {
  h2_maxdeg : Z;
  h2_gdof : gdof_t;
  V : option farray
}.

Definition set_V (self : ElementH2) (v : farray) : ElementH2 :=
  {| h2_maxdeg := h2_maxdeg self; h2_gdof := h2_gdof self; V := Some v |}.

(** [len(tind)] *)
Definition len {A} (a : ndarray A) : res nat :=
  match shape a with
  | [] => Raise TypeError
  | n :: _ => Ok n
  end.

(** [a[k] = v] for a loop counter [k]. *)
Definition set_row (a : farray) (k : nat) (v : farray) : res farray :=
  setitem a [Int (Z.of_nat k)] v.
Definition row (a : farray) (k : nat) : res farray :=
  getitem a [Int (Z.of_nat k)].

(** [0.5*(a + b)] and [a - b] on rows of [v]. *)
Definition midpoint (v : farray) (i j : nat) : res farray :=
  a <- row v i ;; b <- row v j ;; s <- aadd a b ;; Ok (fmuls lit_half s).
Definition difference (v : farray) (i j : nat) : res farray :=
  a <- row v i ;; b <- row v j ;; asub a b.

(** [ElementH2._eval_dofs] *)
Definition _eval_dofs (self : ElementH2) (pb : power_basis)
           (mesh : Mesh) (tind : tind_t) : res farray :=
  tind <- match tind with
          | None => nt <- shape_at (mesh_t mesh) 1 ;; Ok (arange nt)
          | Some ti => Ok ti
          end ;;
  let N := List.length (_pbasis pb) in
  K <- len tind ;;
  let V0 := zeros [K; N; N] in
  nv <- shape_at (mesh_t mesh) 0 ;;
  '(v, e, n) <-
    (if (nv =? 3)%nat then
       let v := zeros [3%nat; 2%nat; K] in
       let e := zeros [3%nat; 2%nat; K] in
       let n := zeros [3%nat; 2%nat; K] in
       (* vertices *)
       v <- foldM (fun v itr =>
                     ix <- take_row (mesh_t mesh) (Z.of_nat itr) tind ;;
                     c <- take_cols (mesh_p mesh) ix ;;
                     set_row v itr c)
                  (range 3) v ;;
       (* edge midpoints *)
       e0 <- midpoint v 0 1 ;; e <- set_row e 0 e0 ;;
       e1 <- midpoint v 1 2 ;; e <- set_row e 1 e1 ;;
       e2 <- midpoint v 0 2 ;; e <- set_row e 2 e2 ;;
       (* normal vectors *)
       n0 <- difference v 0 1 ;; n <- set_row n 0 n0 ;;
       n1 <- difference v 1 2 ;; n <- set_row n 1 n1 ;;
       n2 <- difference v 0 2 ;; n <- set_row n 2 n2 ;;
       n <- foldM (fun n itr =>
                     a <- getitem n [Int (Z.of_nat itr); Int 1; All] ;;
                     b <- getitem n [Int (Z.of_nat itr); Int 0; All] ;;
                     r <- array (fofZ 0) [a; aneg b] ;;
                     n <- set_row n itr r ;;
                     cur <- row n itr ;;
                     len <- linalg_norm0 cur ;;
                     q <- imap2 fdiv cur len ;;
                     set_row n itr q)
                  (range 3) n ;;
       Ok (v, e, n)
     else
       Raise (NotImplementedError
                "The used mesh type not supported in ElementH2.")) ;;
  (* evaluate dofs, gdof implemented in subclasses *)
  foldM (fun Vm itr =>
           foldM (fun Vm jtr =>
                    let u := pget (_pbasis pb) itr in
                    let du := [pget (_pbasisdx pb) itr; pget (_pbasisdy pb) itr] in
                    let ddu := [pget (_pbasisdxx pb) itr;
                                pget (_pbasisdxy pb) itr;
                                pget (_pbasisdyy pb) itr] in
                    g <- h2_gdof self u du ddu v e n (Z.of_nat jtr) ;;
                    setitem Vm [All; Int (Z.of_nat jtr); Int (Z.of_nat itr)] g)
                 (range N) Vm)
        (range N) V0.

(** [du[a, b, c] += V[:, itr, i][:, None] * f(x[0], x[1])] *)
Definition accumulate (Vm : farray) (itr : nat) (i : Z) (f : pfun)
           (x : farray) (target : farray) (at_ : list item) : res farray :=
  col <- getitem Vm [All; Int (Z.of_nat itr); Int i] ;;
  col <- getitem col [All; NewAxis] ;;
  x0 <- getitem x [Int 0] ;;
  x1 <- getitem x [Int 1] ;;
  fx <- f x0 x1 ;;
  term <- amul col fx ;;
  cur <- getitem target at_ ;;
  new <- imap2 fadd cur term ;;
  setitem target at_ new.

(** The part of [ElementH2.gbasis] after the cache has been settled: it
    reads the mapping through [F] alone. *)
Definition gbasis_eval (pb : power_basis) (Vm : farray)
           (F : farray -> tind_t -> res farray)
           (X : farray) (i : Z) (tind : tind_t) : res basis_t :=
  let N := List.length (_pbasis pb) in
  x <- F X tind ;;
  x0 <- getitem x [Int 0] ;;
  let u := zeros (shape x0) in
  x0 <- getitem x [Int 0] ;;
  let du := zeros ([2; 2; 2]%nat ++ shape x0) in
  (* loop over new basis *)
  '(u, du) <-
    foldM (fun '(u, du) itr =>
             u <- accumulate Vm itr i (pget (_pbasis pb) itr) x u [] ;;
             du <- accumulate Vm itr i (pget (_pbasisdx pb) itr) x du
                              [Int 0; Int 0; Int 0] ;;
             du <- accumulate Vm itr i (pget (_pbasisdy pb) itr) x du
                              [Int 0; Int 0; Int 1] ;;
             du <- accumulate Vm itr i (pget (_pbasisdxx pb) itr) x du
                              [Int 1; Int 0; Int 0] ;;
             du <- accumulate Vm itr i (pget (_pbasisdxy pb) itr) x du
                              [Int 1; Int 0; Int 1] ;;
             du <- accumulate Vm itr i (pget (_pbasisdyy pb) itr) x du
                              [Int 1; Int 1; Int 1] ;;
             Ok (u, du))
          (range N) (u, du) ;;
  (* dxy = dyx *)
  dxy <- getitem du [Int 1; Int 0; Int 1] ;;
  du <- setitem du [Int 1; Int 1; Int 0] dxy ;;
  (* Empty *)
  du <- setitem du [Int 0; Int 1; Int 0] (amap (fun v => fadd v fnan) u) ;;
  du <- setitem du [Int 0; Int 1; Int 1] (amap (fun v => fadd v fnan) u) ;;
  Ok (Some (u, du)).

(** [ElementH2.gbasis]: the instance after the call, and what the call
    returned or raised.  An assignment to [self.V] made before an
    exception stays. *)
Definition ElementH2_gbasis (self : ElementH2) (mapping : Mapping)
           (X : farray) (i : Z) (tind : tind_t) : ElementH2 * res basis_t :=
  (* initialize power basis *)
  let pb := _pbasis_init (h2_maxdeg self) in
  match V self with
  | Some Vm => (self, gbasis_eval pb Vm (mapping_F mapping) X i tind)
  | None =>
      (* construct Vandermonde matrix and invert it *)
      match (d <- _eval_dofs self pb (mapping_mesh mapping) tind ;;
             linalg_inv d) with
      | Ok Vm =>
          (set_V self Vm, gbasis_eval pb Vm (mapping_F mapping) X i tind)
      | Raise e => (self, Raise e)
      end
  end.

(** ** class ElementMorley *)

Definition ElementMorley_gdof : gdof_t := fun u du ddu v e n i =>
  let du0 := nth 0 du pfun_error in
  let du1 := nth 1 du pfun_error in
  let normal_derivative (k : nat) : res farray :=
    ek <- row e k ;;
    a <- call_rows du0 ek ;;
    nk0 <- getitem n [Int (Z.of_nat k); Int 0] ;;
    a <- amul a nk0 ;;
    ek <- row e k ;;
    b <- call_rows du1 ek ;;
    nk1 <- getitem n [Int (Z.of_nat k); Int 1] ;;
    b <- amul b nk1 ;;
    aadd a b in
  if i =? 0 then v0 <- row v 0 ;; call_rows u v0
  else if i =? 1 then v1 <- row v 1 ;; call_rows u v1
  else if i =? 2 then v2 <- row v 2 ;; call_rows u v2
  else if i =? 3 then normal_derivative 0%nat
  else if i =? 4 then normal_derivative 1%nat
  else if i =? 5 then normal_derivative 2%nat
  else Raise (Exception "!").

Definition ElementMorley : ElementH2 :=
  {| h2_maxdeg := 2; h2_gdof := ElementMorley_gdof; V := None |}.

End ElementH2.

(* ================================================================== *)
(** * interior_basis.py: InteriorBasis.__init__ *)
(* ================================================================== *)

Section InteriorBasis.

Context {num : Type} `{Scalar num}.

Local Abbreviation farray := (farray num).
Local Abbreviation Mesh := (Mesh num).
Local Abbreviation Mapping := (Mapping num).
Local Abbreviation basis_t := (basis_t num).

(** The element object and its [gbasis]; an element may carry state
    (the cache of [ElementH2]), so a call also returns the object. *)
Variable elem_t : Type.
Variable elem_gbasis :
  elem_t -> Mapping -> farray -> Z -> tind_t -> elem_t * res basis_t.

(** [skfem.quadrature.get_quadrature(refdom, intorder)]: the points [X]
    and the weights [W]. *)
Variable get_quadrature : string -> Z -> res (farray * farray).

(** The attributes that [GlobalBasis.__init__] has set when the body of
    [InteriorBasis.__init__] runs. *)
Record GlobalBasis : Type := {
  gb_mesh : Mesh;
  gb_elem : elem_t;
  gb_mapping : Mapping;
  gb_refdom : string;
  gb_intorder : Z;
  gb_nt : nat;
  gb_Nbfun : nat
}.

(** The attributes [InteriorBasis.__init__] adds. *)
Record InteriorBasis : Type := {
  ib_X : farray;
  ib_W : farray;
  ib_basis : list (list farray);
  ib_nelems : nat;
  ib_dx : farray
}.

(** [[elem.gbasis(mapping, X, j) for j in js]] *)
Fixpoint eval_gbasis (elem : elem_t) (mapping : Mapping) (X : farray)
         (js : list nat) : elem_t * res (list basis_t) :=
  match js with
  | [] => (elem, Ok [])
  | j :: js' =>
      match elem_gbasis elem mapping X (Z.of_nat j) None with
      | (elem', Ok b) =>
          match eval_gbasis elem' mapping X js' with
          | (elem'', Ok bs) => (elem'', Ok (b :: bs))
          | (elem'', Raise e) => (elem'', Raise e)
          end
      | (elem', Raise e) => (elem', Raise e)
      end
  end.

(** [list(zip( *l))] for a list of pairs; [None] among them cannot be
    unpacked. *)
Definition zip_star (l : list basis_t) : res (list (list farray)) :=
  pairs <- mapM unpack l ;;
  match pairs with
  | [] => Ok []
  | _ => Ok [map fst pairs; map snd pairs]
  end.

Definition InteriorBasis_init (self : GlobalBasis)
  : elem_t * res InteriorBasis :=
  match get_quadrature (gb_refdom self) (gb_intorder self) with
  | Raise e => (gb_elem self, Raise e)
  | Ok (X, W) =>
      match eval_gbasis (gb_elem self) (gb_mapping self) X
                        (range (gb_Nbfun self)) with
      | (elem, Raise e) => (elem, Raise e)
      | (elem, Ok l) =>
          (elem,
           basis <- zip_star l ;;
           let nelems := gb_nt self in
           d <- mapping_detDF (gb_mapping self) X None ;;
           dx <- amul (aabs d) (tile_rows W nelems) ;;
           Ok {| ib_X := X; ib_W := W; ib_basis := basis;
                 ib_nelems := nelems; ib_dx := dx |})
      end
  end.

End InteriorBasis.

Arguments gb_mesh {num elem_t} g.
Arguments gb_elem {num elem_t} g.
Arguments gb_mapping {num elem_t} g.
Arguments gb_refdom {num elem_t} g.
Arguments gb_intorder {num elem_t} g.
Arguments gb_nt {num elem_t} g.
Arguments gb_Nbfun {num elem_t} g.
Arguments ib_X {num} i.
Arguments ib_W {num} i.
Arguments ib_basis {num} i.
Arguments ib_nelems {num} i.
Arguments ib_dx {num} i.
Arguments eval_gbasis {num elem_t} elem_gbasis elem mapping X js.
Arguments InteriorBasis_init {num _ elem_t} elem_gbasis get_quadrature self.

(* ================================================================== *)
(** * Vocabulary of the statements *)
(* ================================================================== *)

Section Vocabulary.

Context {num : Type} `{Scalar num}.

(** The shapes of a mesh whose [nt] elements have [nl] local faces each,
    [nf] faces in all, and valid face numbers in row [i] of [t2f]. *)
Definition faces_ok (mesh : Mesh num) (i : Z) (nt nl nf : nat) : Prop :=
  (exists nv, shape (mesh_t mesh) = [nv; nt]) /\
  shape (mesh_t2f mesh) = [nl; nt] /\
  (exists nr, shape (mesh_f2t mesh) = [S nr; nf]) /\
  0 <= i < Z.of_nat nl /\
  forall t, (t < nt)%nat ->
            0 <= get (mesh_t2f mesh) [Z.to_nat i; t] < Z.of_nat nf.

(** The first element adjacent to the [i]-th face of element [t]. *)
Definition first_adjacent (mesh : Mesh num) (i : Z) (t : nat) : Z :=
  get (mesh_f2t mesh)
      [0%nat; Z.to_nat (get (mesh_t2f mesh) [Z.to_nat i; t])].

(** The sign an [orient] call gives for element [t]. *)
Definition sign_at (r : res (ndarray Z)) (t : nat) : res Z :=
  o <- r ;; Ok (get o [t]).

End Vocabulary.

Section CallSequences.

Context {num : Type} `{Scalar num} `{ScalarNaN num}.

Variable linalg_inv : farray num -> res (farray num).
Variable linalg_norm0 : farray num -> res (farray num).

(** The arguments of one [gbasis] call. *)
Definition call_t : Type := (Mapping num * farray num * Z * tind_t)%type.

(** Successive [gbasis] calls on one instance: the instance after the
    last call and what each call returned or raised. *)
Fixpoint run_gbasis (self : ElementH2) (calls : list call_t)
  : ElementH2 * list (res (basis_t num)) :=
  match calls with
  | [] => (self, [])
  | (mapping, X, i, tind) :: calls' =>
      let '(self', r) :=
        ElementH2_gbasis linalg_inv linalg_norm0 self mapping X i tind in
      let '(self'', rs) := run_gbasis self' calls' in
      (self'', r :: rs)
  end.

End CallSequences.

(* ================================================================== *)
(** * A two-triangle mesh of the unit square, for the examples *)
(* ================================================================== *)

(** The value of a call that returned. *)
Definition unwrap {A} (d : A) (c : res A) : A :=
  match c with
  | Ok a => a
  | Raise _ => d
  end.

Section UnitSquare.

Context {num : Type} `{Scalar num}.

(** Vertices (0,0), (1,0), (0,1), (1,1); triangles (0,1,2) and (1,2,3);
    facets (0,1), (0,2), (1,2), (1,3), (2,3), the facet (1,2) being
    shared, with triangle 0 listed first. *)
Definition square_mesh : Mesh num := {|
  mesh_p := of_list2 (fofZ 0) [[fofZ 0; fofZ 1; fofZ 0; fofZ 1];
                               [fofZ 0; fofZ 0; fofZ 1; fofZ 1]];
  mesh_t := of_list2 0 [[0; 1]; [1; 2]; [2; 3]];
  mesh_t2f := of_list2 0 [[0; 2]; [2; 4]; [1; 3]];
  mesh_f2t := of_list2 0 [[0; 0; 0; 1; 1]; [-1; -1; 1; -1; -1]]
|}.

(** The affine map of each triangle of a mesh: x = A X + b with
    b the first vertex and the columns of A the two edges from it. *)
Section Affine.

Variable mesh : Mesh num.

Definition vertex (a k j : nat) : num :=
  get (mesh_p mesh) [a; Z.to_nat (get (mesh_t mesh) [j; k])].

Definition jacobian (a b k : nat) : num :=
  fsub (vertex a k (S b)) (vertex a k 0).

Definition determinant (k : nat) : num :=
  fsub (fmul (jacobian 0 0 k) (jacobian 1 1 k))
       (fmul (jacobian 0 1 k) (jacobian 1 0 k)).

Definition inverse (a b k : nat) : num :=
  match a, b with
  | O, O => fdiv (jacobian 1 1 k) (determinant k)
  | O, _ => fdiv (fneg (jacobian 0 1 k)) (determinant k)
  | _, O => fdiv (fneg (jacobian 1 0 k)) (determinant k)
  | _, _ => fdiv (jacobian 0 0 k) (determinant k)
  end.

(** The elements a call ranges over, and the one at position [k]. *)
Definition batch_size (tind : tind_t) : nat :=
  match tind with
  | None => nth 1 (shape (mesh_t mesh)) 0%nat
  | Some ti => hd 0%nat (shape ti)
  end.

Definition batch_elem (tind : tind_t) (k : nat) : nat :=
  match tind with
  | None => k
  | Some ti => Z.to_nat (get ti [k])
  end.

Definition npoints (X : farray num) : nat := last (shape X) 0%nat.

(** The point [l] of the batch for the element at position [k]. *)
Definition point (X : farray num) (a k l : nat) : num :=
  if (ndim X =? 2)%nat then get X [a; l] else get X [a; k; l].

Definition MappingAffine : Mapping num := {|
  mapping_mesh := mesh;
  mapping_F := fun X tind =>
    Ok (mk [2%nat; batch_size tind; npoints X]
           (fun ix =>
              let a := nth 0 ix 0%nat in
              let k := nth 1 ix 0%nat in
              let l := nth 2 ix 0%nat in
              let e := batch_elem tind k in
              fadd (fadd (fmul (jacobian a 0 e) (point X 0 k l))
                         (fmul (jacobian a 1 e) (point X 1 k l)))
                   (vertex a e 0)));
  mapping_DF := fun X tind =>
    Ok (mk [2%nat; 2%nat; batch_size tind; npoints X]
           (fun ix => jacobian (nth 0 ix 0%nat) (nth 1 ix 0%nat)
                               (batch_elem tind (nth 2 ix 0%nat))));
  mapping_invDF := fun X tind =>
    Ok (mk [2%nat; 2%nat; batch_size tind; npoints X]
           (fun ix => inverse (nth 0 ix 0%nat) (nth 1 ix 0%nat)
                              (batch_elem tind (nth 2 ix 0%nat))));
  mapping_detDF := fun X tind =>
    Ok (mk [batch_size tind; npoints X]
           (fun ix => determinant (batch_elem tind (nth 0 ix 0%nat))))
|}.

End Affine.

Definition square_mapping : Mapping num := MappingAffine square_mesh.

(** The one-point rule of the reference triangle. *)
Definition third : num := fdiv (fofZ 1) (fofZ 3).
Definition X1 : farray num := of_list2 (fofZ 0) [[third]; [third]].
Definition W1 : farray num := of_list (fofZ 0) [lit_half].

(** One point per element, for the two elements. *)
Definition X2 : farray num :=
  mk [2%nat; 2%nat; 1%nat] (fun _ => third).

Definition quadrature1 (refdom : string) (intorder : Z)
  : res (farray num * farray num) := Ok (X1, W1).

(** Elements without state, as [InteriorBasis] takes them. *)
Definition stateless (elem : Element) (_ : unit) (mapping : Mapping num)
           (X : farray num) (i : Z) (tind : tind_t)
  : unit * res (basis_t num) :=
  (tt, gbasis elem mapping X i tind).

Definition square_basis (Nbfun : nat) : GlobalBasis unit := {|
  gb_mesh := square_mesh;
  gb_elem := tt;
  gb_mapping := square_mapping;
  gb_refdom := "tri";
  gb_intorder := 2;
  gb_nt := 2;
  gb_Nbfun := Nbfun
|}.

End UnitSquare.

(** ** float64 routines for the H2 examples *)

Module Float64Linalg.

Definition sqrt : Float64.t -> Float64.t := SFsqrt Float64.prec Float64.emax.

Definition is_zero (x : Float64.t) : bool :=
  match x with S754_zero _ => true | _ => false end.

(** [np.linalg.norm(a, axis=0)]: the root of the sum of squares along the
    first axis. *)
Definition norm0 (a : farray Float64.t) : res (farray Float64.t) :=
  match shape a with
  | [] => Raise ValueError
  | n :: s =>
      Ok (mk s (fun ix =>
                  sqrt (fsum (map (fun i => Float64.mul (get a (i :: ix))
                                                        (get a (i :: ix)))
                                  (seq 0 n)))))
  end.

(** [np.linalg.inv] on a stack of 1 x 1 matrices. *)
Definition inv1 (a : farray Float64.t) : res (farray Float64.t) :=
  match shape a with
  | [K; 1%nat; 1%nat] =>
      if existsb is_zero (to_list a) then Raise LinAlgError
      else Ok (amap (Float64.div (Float64.of_Z 1)) a)
  | _ => Raise LinAlgError
  end.

(** An H2 element of degree 0 with the first DOF of the Morley element:
    one basis function, the constant whose value at the first vertex
    is 1. *)
Definition ElementConstant : ElementH2 (num := Float64.t) :=
  {| h2_maxdeg := 0; h2_gdof := ElementMorley_gdof; V := None |}.

End Float64Linalg.

(* ================================================================== *)
(** * Two tetrahedra, for the examples in three dimensions *)
(* ================================================================== *)

Section Tetrahedra.

Context {num : Type} `{Scalar num}.

(** The reference tetrahedron (0, 1, 2, 3) and a second element that
    lists the vertices (4, 1, 2, 3), so that its edges from local vertex
    0 run from the higher to the lower vertex number. *)
Definition tet_mesh : Mesh num := {|
  mesh_p := of_list2 (fofZ 0)
              [[fofZ 0; fofZ 1; fofZ 0; fofZ 0; fofZ 1];
               [fofZ 0; fofZ 0; fofZ 1; fofZ 0; fofZ 1];
               [fofZ 0; fofZ 0; fofZ 0; fofZ 1; fofZ 1]];
  mesh_t := of_list2 0 [[0; 4]; [1; 1]; [2; 2]; [3; 3]];
  mesh_t2f := of_list2 0 [[0; 4]; [1; 5]; [2; 6]; [3; 3]];
  mesh_f2t := of_list2 0 [[0; 0; 0; 0; 1; 1; 1]; [-1; -1; -1; 1; -1; -1; -1]]
|}.

(** A mapping of [tet_mesh] with constant Jacobian diag(2, 1, 1) on
    every element: inverse diag(1/2, 1, 1) and determinant 2. *)
Definition diagonal (a b c : num) (i j : nat) : num :=
  match i, j with
  | 0%nat, 0%nat => a
  | 1%nat, 1%nat => b
  | 2%nat, 2%nat => c
  | _, _ => fofZ 0
  end.

Definition tet_mapping : Mapping num := {|
  mapping_mesh := tet_mesh;
  mapping_F := fun X tind =>
    Ok (mk [3%nat; batch_size tet_mesh tind; npoints X]
           (fun ix =>
              fmul (diagonal (fofZ 2) (fofZ 1) (fofZ 1)
                             (nth 0 ix 0%nat) (nth 0 ix 0%nat))
                   (point X (nth 0 ix 0%nat) (nth 1 ix 0%nat)
                          (nth 2 ix 0%nat))));
  mapping_DF := fun X tind =>
    Ok (mk [3%nat; 3%nat; batch_size tet_mesh tind; npoints X]
           (fun ix => diagonal (fofZ 2) (fofZ 1) (fofZ 1)
                               (nth 0 ix 0%nat) (nth 1 ix 0%nat)));
  mapping_invDF := fun X tind =>
    Ok (mk [3%nat; 3%nat; batch_size tet_mesh tind; npoints X]
           (fun ix => diagonal lit_half (fofZ 1) (fofZ 1)
                               (nth 0 ix 0%nat) (nth 1 ix 0%nat)));
  mapping_detDF := fun X tind =>
    Ok (mk [batch_size tet_mesh tind; npoints X] (fun _ => fofZ 2))
|}.

(** The one-point rule of the reference tetrahedron. *)
Definition X3 : farray num :=
  of_list2 (fofZ 0) [[lit_quarter]; [lit_quarter]; [lit_quarter]].

(** The local endpoints of the six edges of a tetrahedron, as
    [ElementHcurl.orient] lists them. *)
Definition edge_start (i : Z) : nat :=
  Z.to_nat (nth (Z.to_nat i) [0; 1; 0; 0; 1; 2] 0).
Definition edge_end (i : Z) : nat :=
  Z.to_nat (nth (Z.to_nat i) [1; 2; 2; 3; 3; 3] 0).

End Tetrahedra.

(* ================================================================== *)
(** * Reading the reference basis at a point (exact arithmetic) *)
(* ================================================================== *)

Section ReferenceValues.

Local Open Scope Q_scope.

(** The value of basis function [i] at point [l] of the batch [X], and
    component [c] of its reference derivative there. *)
Definition value_at (lbasis : lbasis_t Q) (X : farray Q) (i : Z) (l : nat)
  : Q :=
  get (fst (unwrap (zeros [], zeros []) (lbasis X i))) [l].

Definition deriv_at (lbasis : lbasis_t Q) (X : farray Q) (i : Z)
           (c l : nat) : Q :=
  get (snd (unwrap (zeros [], zeros []) (lbasis X i))) [c; l].

(** Component [c] of a vector-valued basis function, and its scalar
    derivative (the divergence of an H(div) function). *)
Definition vector_at (lbasis : lbasis_t Q) (X : farray Q) (i : Z)
           (c l : nat) : Q :=
  get (fst (unwrap (zeros [], zeros []) (lbasis X i))) [c; l].

Definition scalar_deriv_at (lbasis : lbasis_t Q) (X : farray Q) (i : Z)
           (l : nat) : Q :=
  get (snd (unwrap (zeros [], zeros []) (lbasis X i))) [l].

Definition Qsum (l : list Q) : Q := fold_right Qplus 0 l.

(** The sum over the local indices [0 .. n-1]. *)
Definition sum_over (n : nat) (f : Z -> Q) : Q :=
  Qsum (map (fun i => f (Z.of_nat i)) (seq 0 n)).

(** [Xh] is the batch [X] with [h] added to coordinate [c] of point [l]. *)
Definition shifted (X Xh : farray Q) (c l : nat) (h : Q) : Prop :=
  forall a, get Xh [a; l] == get X [a; l] + (if (a =? c)%nat then h else 0).

(** Point [l] of [X] is the point [(x, y)]. *)
Definition is_point (X : farray Q) (l : nat) (p : Q * Q) : Prop :=
  get X [0%nat; l] == fst p /\ get X [1%nat; l] == snd p.

(** The vertices of the reference triangle, and the vertices, edge
    midpoints and centre of the reference square [-1, 1]^2, in the order
    of the local indices. *)
Definition triangle_nodes : list (Q * Q) := [(0, 0); (1, 0); (0, 1)].

Definition square_nodes : list (Q * Q) :=
  [(-1, -1); (1, -1); (1, 1); (-1, 1);
   (0, -1); (1, 0); (0, 1); (-1, 0); (0, 0)].

Definition node (nodes : list (Q * Q)) (j : nat) : Q * Q :=
  nth j nodes (0, 0).

Definition delta (i j : nat) : Q := if (i =? j)%nat then 1 else 0.

End ReferenceValues.

(** Batches of one point. *)
Definition point2 (x y : Q) : farray Q := of_list2 0%Q [[x]; [y]].
Definition point3 (x y z : Q) : farray Q := of_list2 0%Q [[x]; [y]; [z]].

Section EdgeFixtures.

Context {num : Type} `{Scalar num}.

(** A batch of points with four axes. *)
Definition X4 : farray num :=
  mk [2%nat; 1%nat; 1%nat; 1%nat] (fun _ => third).

Definition quadrature4 (refdom : string) (intorder : Z)
  : res (farray num * farray num) := Ok (X4, W1).

(** A lookup for a reference domain without quadrature rule. *)
Definition quadrature_unknown (refdom : string) (intorder : Z)
  : res (farray num * farray num) := Raise (NotImplementedError "The domain not yet supported.").

(** The value and derivative of a call that returned a pair. *)
Definition returned (c : res (basis_t num)) : farray num * farray num :=
  unwrap (zeros [], zeros []) (r <- c ;; unpack r).

End EdgeFixtures.

(** The content of an option that is not [None]. *)
Definition the {A} (d : A) (o : option A) : A :=
  match o with
  | Some a => a
  | None => d
  end.

Definition is_some {A} (o : option A) : bool :=
  match o with
  | Some _ => true
  | None => false
  end.

(* ================================================================== *)
(** * Facts about the numpy fragment *)
(* ================================================================== *)

Section NpFacts.

Lemma bdim_refl (n : nat) : bdim n n = Some n.
Proof. unfold bdim. now rewrite Nat.eqb_refl. Qed.

Lemma bdim_one_r (n : nat) : bdim n 1 = Some n.
Proof.
  unfold bdim. destruct (Nat.eqb_spec n 1) as [->|Hn]; [reflexivity|].
  reflexivity.
Qed.

Lemma bdim_one_l (n : nat) : bdim 1 n = Some n.
Proof.
  unfold bdim. destruct (Nat.eqb_spec 1 n) as [<-|Hn]; reflexivity.
Qed.

Lemma pick_lt (d i : nat) : (i < d)%nat -> pick d i = i.
Proof.
  unfold pick. destruct (Nat.eqb_spec d 1) as [->|Hd]; [lia|reflexivity].
Qed.

Lemma pick_one (i : nat) : pick 1 i = 0%nat.
Proof. reflexivity. Qed.

Lemma shape_eqb_refl (s : list nat) : shape_eqb s s = true.
Proof. unfold shape_eqb. now destruct (list_eq_dec Nat.eq_dec s s). Qed.

Lemma shape_eqb_true (s1 s2 : list nat) : shape_eqb s1 s2 = true -> s1 = s2.
Proof.
  unfold shape_eqb. now destruct (list_eq_dec Nat.eq_dec s1 s2).
Qed.

Lemma norm_index_nonneg (n : nat) (i : Z) :
  0 <= i < Z.of_nat n -> norm_index n i = Ok (Z.to_nat i).
Proof.
  intros Hi. unfold norm_index.
  destruct (Z.leb_spec 0 i); [|lia].
  destruct (Z.ltb_spec i (Z.of_nat n)); [|lia]. reflexivity.
Qed.

Lemma norm_index_nat (n k : nat) :
  (k < n)%nat -> norm_index n (Z.of_nat k) = Ok k.
Proof.
  intros Hk. rewrite norm_index_nonneg by lia. now rewrite Nat2Z.id.
Qed.

(** Every index of a one-axis shape is a singleton below the length. *)
Lemma all_indices_1d (n : nat) (jx : list nat) :
  In jx (all_indices [n]) -> exists j, jx = [j] /\ (j < n)%nat.
Proof.
  cbn. rewrite in_flat_map. intros (j & Hj & Hin).
  apply in_seq in Hj. cbn in Hin. destruct Hin as [<-|[]].
  exists j. split; [reflexivity|lia].
Qed.

Lemma all_in_bounds_1d (m n : nat) (idx : ndarray Z) :
  shape idx = [n] ->
  (forall j, (j < n)%nat -> 0 <= get idx [j] < Z.of_nat m) ->
  all_in_bounds m idx = true.
Proof.
  intros Hs Hb. unfold all_in_bounds. rewrite Hs.
  apply forallb_forall. intros jx Hin.
  apply all_indices_1d in Hin. destruct Hin as (j & -> & Hj).
  specialize (Hb j Hj). unfold in_bounds.
  apply andb_true_intro. split; [apply Z.leb_le|apply Z.ltb_lt]; lia.
Qed.

Lemma wrap_nonneg (n : nat) (z : Z) : 0 <= z -> wrap n z = Z.to_nat z.
Proof.
  intros Hz. unfold wrap. destruct (Z.ltb_spec z 0); [lia|reflexivity].
Qed.

(** A row [X[i, :]] of a two-axis array. *)
Lemma getitem_row_ok {A} (X : ndarray A) (n L : nat) (i : Z) :
  shape X = [n; L] -> (0 <= i < Z.of_nat n)%Z ->
  getitem X [Int i; All]
  = Ok (mk [L] (fun ix => get X (Z.to_nat i :: hd 0%nat ix :: tl ix))).
Proof.
  intros Hs Hi. unfold getitem. rewrite Hs. cbn [norm_items].
  rewrite norm_index_nonneg by assumption. reflexivity.
Qed.

End NpFacts.

(* ================================================================== *)
(** * Orientation *)
(* ================================================================== *)

Section OrientFacts.

Context {num : Type} `{Scalar num}.

Lemma ElementHdiv_orient_ok (mapping : Mapping num) (i : Z) (tind : tind_t)
      (nt nl nf : nat) :
  faces_ok (mapping_mesh mapping) i nt nl nf ->
  exists o,
    ElementHdiv_orient mapping i tind = Ok o /\
    shape o = [nt] /\
    forall t, (t < nt)%nat ->
      get o [t]
      = -1 + 2 * Z_of_bool (first_adjacent (mapping_mesh mapping) i t
                            =? Z.of_nat t).
Proof.
  set (mesh := mapping_mesh mapping).
  intros ((nv & Ht) & Ht2f & (nr & Hf2t) & Hi & Hfaces).
  unfold ElementHdiv_orient. fold mesh.
  unfold getitem at 1. rewrite Ht2f. cbn [norm_items].
  rewrite norm_index_nonneg by assumption. cbn [bind view_shape hd tl].
  unfold take_row. rewrite Hf2t. cbn [shape].
  rewrite norm_index_nonneg by lia. cbn [bind].
  rewrite (all_in_bounds_1d nf nt) by (cbn; auto).
  unfold shape_at. rewrite Ht. cbn [nth_error bind].
  unfold map2. cbn [shape app arange].
  unfold broadcast_shapes. cbn [rev app bshape_rev]. rewrite bdim_refl.
  cbn [option_map rev app].
  eexists. split; [reflexivity|]. split; [reflexivity|].
  intros t Hlt.
  cbn [amap get shape ndim List.length firstn skipn view_src hd tl].
  unfold bidx. cbn [rev app bidx_rev]. rewrite pick_lt by assumption.
  cbn [firstn skipn view_src hd tl Z.to_nat].
  rewrite wrap_nonneg by (apply Hfaces; assumption).
  reflexivity.
Qed.

(** C5.  For a mesh with consistent tables and a local face index [i],
    [ElementHdiv.orient] returns one sign per mesh element; the sign of
    element [t] is +1 exactly when [t] is the first element adjacent to
    its [i]-th face, and -1 otherwise. *)
Theorem ElementHdiv_orient_sign (mapping : Mapping num) (i : Z)
        (tind : tind_t) (nt nl nf : nat) :
  faces_ok (mapping_mesh mapping) i nt nl nf ->
  exists o,
    ElementHdiv_orient mapping i tind = Ok o /\
    shape o = [nt] /\
    forall t, (t < nt)%nat ->
      (get o [t] = 1 <->
       first_adjacent (mapping_mesh mapping) i t = Z.of_nat t) /\
      (get o [t] = -1 <->
       first_adjacent (mapping_mesh mapping) i t <> Z.of_nat t) /\
      (get o [t] = 1 \/ get o [t] = -1).
Proof.
  intros Hok.
  destruct (ElementHdiv_orient_ok mapping i tind nt nl nf Hok) as (o & Ho & Hs & Hget).
  exists o. split; [assumption|]. split; [assumption|].
  intros t Hlt. rewrite (Hget t Hlt).
  destruct (Z.eqb_spec (first_adjacent (mapping_mesh mapping) i t)
                       (Z.of_nat t)) as [Heq|Hne]; cbn [Z_of_bool].
  - split; [split; intros; [assumption|lia]|].
    split; [split; intros; [lia|contradiction]|now left].
  - split; [split; intros; [lia|contradiction]|].
    split; [split; intros; [assumption|lia]|now right].
Qed.


End OrientFacts.

(* ================================================================== *)
(** * The H(div) and H1 transforms *)
(* ================================================================== *)

Section TransformFacts.

Context {num : Type} `{Scalar num}.

Lemma broadcast_rows (K L : nat) :
  broadcast_shapes [K; L] [K; 1%nat] = Some [K; L].
Proof.
  unfold broadcast_shapes. cbn [rev app bshape_rev].
  now rewrite bdim_one_r, bdim_refl.
Qed.

Lemma broadcast_same2 (K L : nat) :
  broadcast_shapes [K; L] [K; L] = Some [K; L].
Proof.
  unfold broadcast_shapes. cbn [rev app bshape_rev].
  now rewrite !bdim_refl.
Qed.

Lemma broadcast_last (K L : nat) :
  broadcast_shapes [L] [K; L] = Some [K; L].
Proof.
  unfold broadcast_shapes. cbn [rev app bshape_rev].
  now rewrite bdim_refl.
Qed.

Lemma bidx2 (K L k l : nat) :
  (k < K)%nat -> (l < L)%nat -> bidx [K; L] [k; l] = [k; l].
Proof.
  intros Hk Hl. unfold bidx. cbn [rev app bidx_rev].
  now rewrite !pick_lt by assumption.
Qed.

Lemma bidx_col (K k l : nat) :
  (k < K)%nat -> bidx [K; 1%nat] [k; l] = [k; 0%nat].
Proof.
  intros Hk. unfold bidx. cbn [rev app bidx_rev].
  now rewrite pick_one, pick_lt by assumption.
Qed.

Lemma bidx_last (L k l : nat) :
  (l < L)%nat -> bidx [L] [k; l] = [l].
Proof.
  intros Hl. unfold bidx. cbn [rev app bidx_rev].
  now rewrite pick_lt by assumption.
Qed.

(** [o[:, None]] of a one-axis array. *)
Lemma getitem_column {A} (o : ndarray A) (K : nat) :
  shape o = [K] ->
  exists c, getitem o [All; NewAxis] = Ok c /\
            shape c = [K; 1%nat] /\
            forall k j, get c [k; j] = get o [k].
Proof.
  intros Hs. unfold getitem. rewrite Hs. cbn.
  eexists. split; [reflexivity|]. split; reflexivity.
Qed.

(** A sum whose terms agree on the range is the same sum. *)
Lemma fsum_ext (f g : nat -> num) (n : nat) :
  (forall j, (j < n)%nat -> f j = g j) ->
  fsum (map f (seq 0 n)) = fsum (map g (seq 0 n)).
Proof.
  intros Hfg. f_equal. apply map_ext_in. intros j Hj.
  apply in_seq in Hj. apply Hfg. lia.
Qed.

(** C1.  [ElementHdiv.gbasis] is the contravariant Piola transform: at
    element [k] and point [l] the value is the Jacobian contracted with
    the reference value, each term scaled by (1/|det|) times the sign
    [orient] returns for [k], and the derivative is the reference
    derivative divided by |det| times that sign. *)
Theorem ElementHdiv_gbasis_piola (lbasis : lbasis_t num)
        (mapping : Mapping num) (X : farray num) (i : Z) (tind : tind_t)
        (phi dphi DF detDF : farray num) (o : ndarray Z) (d K L : nat) :
  lbasis X i = Ok (phi, dphi) ->
  mapping_DF mapping X tind = Ok DF ->
  mapping_detDF mapping X tind = Ok detDF ->
  ElementHdiv_orient mapping i tind = Ok o ->
  shape phi = [d; L] -> shape dphi = [L] ->
  shape DF = [d; d; K; L] -> shape detDF = [K; L] -> shape o = [K] ->
  exists u du,
    ElementHdiv_gbasis lbasis mapping X i tind = Ok (Some (u, du)) /\
    shape u = [d; K; L] /\ shape du = [K; L] /\
    forall k l, (k < K)%nat -> (l < L)%nat ->
      (forall a, (a < d)%nat ->
         get u [a; k; l]
         = fsum (map (fun j =>
                        fmul (fmul (get DF [a; j; k; l]) (get phi [j; l]))
                             (fmul (fdiv (fofZ 1) (fabs (get detDF [k; l])))
                                   (fofZ (get o [k]))))
                     (seq 0 d))) /\
      get du [k; l]
      = fdiv (get dphi [l])
             (fmul (fabs (get detDF [k; l])) (fofZ (get o [k]))).
Proof.
  intros Hl HDF Hdet Ho Sphi Sdphi SDF Sdet So.
  destruct (getitem_column o K So) as (c & Hc & Sc & Gc).
  unfold ElementHdiv_gbasis.
  rewrite Hl; cbn [bind]. rewrite HDF; cbn [bind].
  rewrite Hdet; cbn [bind]. rewrite Ho; cbn [bind]. rewrite Hc; cbn [bind].
  unfold amul, adiv, map2.
  cbn [shape sdiv aabs as_float amap]. rewrite Sdet, Sc, broadcast_rows.
  cbn [bind]. unfold einsum_ijkl_jl_kl_ikl. cbn [shape].
  rewrite SDF, Sphi. unfold bdim3. rewrite !bdim_refl. cbn [bind].
  rewrite Sdphi, broadcast_last. cbn [bind].
  eexists; eexists. split; [reflexivity|]. split; [reflexivity|].
  split; [reflexivity|].
  intros k l Hk Hlt. cbn [get]. split.
  - intros a Ha. apply fsum_ext. intros j Hj.
    rewrite !pick_lt by assumption.
    rewrite bidx2, bidx_col by assumption.
    cbn [get sdiv aabs as_float amap]. now rewrite Gc.
  - rewrite bidx_last, bidx2, bidx_col by assumption.
    cbn [get sdiv aabs as_float amap].
    rewrite ?bidx2, ?bidx_col by assumption.
    cbn [get sdiv aabs as_float amap]. now rewrite ?Gc.
Qed.

Lemma ElementH1_gbasis_points (lbasis : lbasis_t num)
      (mapping : Mapping num) (X : farray num) (i : Z) (tind : tind_t)
      (phi dphi invDF : farray num) (d K L : nat) :
  ndim X = 2%nat ->
  lbasis X i = Ok (phi, dphi) ->
  mapping_invDF mapping X tind = Ok invDF ->
  shape phi = [L] -> shape dphi = [d; L] -> shape invDF = [d; d; K; L] ->
  exists u du,
    ElementH1_gbasis lbasis mapping X i tind = Ok (Some (u, du)) /\
    shape u = [K; L] /\ shape du = [d; K; L] /\
    forall k l, (k < K)%nat -> (l < L)%nat ->
      get u [k; l] = get phi [l] /\
      forall j, (j < d)%nat ->
        get du [j; k; l]
        = fsum (map (fun a => fmul (get invDF [a; j; k; l]) (get dphi [a; l]))
                    (seq 0 d)).
Proof.
  intros HX Hl Hinv Sphi Sdphi Sinv.
  unfold ElementH1_gbasis.
  rewrite Hl; cbn [bind]. rewrite Hinv; cbn [bind]. rewrite HX.
  cbn [Nat.eqb]. unfold shape_at. rewrite Sinv. cbn [nth_error bind].
  unfold broadcast_to. rewrite Sphi, broadcast_last, shape_eqb_refl.
  cbn [bind]. unfold einsum_ijkl_il_jkl. rewrite Sinv, Sdphi, !bdim_refl.
  cbn [bind].
  eexists; eexists. split; [reflexivity|]. split; [reflexivity|].
  split; [reflexivity|].
  intros k l Hk Hlt. cbn [get]. split.
  - now rewrite bidx_last by assumption.
  - intros j Hj. apply fsum_ext. intros a Ha.
    now rewrite !pick_lt by assumption.
Qed.

Lemma ElementH1_gbasis_points_per_element (lbasis : lbasis_t num)
      (mapping : Mapping num) (X : farray num) (i : Z) (tind : tind_t)
      (phi dphi invDF : farray num) (d K L : nat) :
  ndim X = 3%nat ->
  lbasis X i = Ok (phi, dphi) ->
  mapping_invDF mapping X tind = Ok invDF ->
  shape phi = [K; L] -> shape dphi = [d; K; L] ->
  shape invDF = [d; d; K; L] ->
  exists u du,
    ElementH1_gbasis lbasis mapping X i tind = Ok (Some (u, du)) /\
    shape u = [K; L] /\ shape du = [d; K; L] /\
    forall k l, (k < K)%nat -> (l < L)%nat ->
      get u [k; l] = get phi [k; l] /\
      forall j, (j < d)%nat ->
        get du [j; k; l]
        = fsum (map (fun a => fmul (get invDF [a; j; k; l])
                                   (get dphi [a; k; l]))
                    (seq 0 d)).
Proof.
  intros HX Hl Hinv Sphi Sdphi Sinv.
  unfold ElementH1_gbasis.
  rewrite Hl; cbn [bind]. rewrite Hinv; cbn [bind]. rewrite HX.
  cbn [Nat.eqb]. unfold shape_at. rewrite Sinv. cbn [nth_error bind].
  unfold broadcast_to. rewrite Sphi, broadcast_same2, shape_eqb_refl.
  cbn [bind]. unfold einsum_ijkl_ikl_jkl. rewrite Sinv, Sdphi, !bdim_refl.
  cbn [bind].
  eexists; eexists. split; [reflexivity|]. split; [reflexivity|].
  split; [reflexivity|].
  intros k l Hk Hlt. cbn [get]. split.
  - now rewrite bidx2 by assumption.
  - intros j Hj. apply fsum_ext. intros a Ha.
    now rewrite !pick_lt by assumption.
Qed.

(** C2.  [ElementH1.gbasis] returns the reference value of [lbasis]
    unchanged at every mesh element, and the derivative
    du[j] = sum_a invDF[a, j] * dphi[a] at every element and point.
    The reference points are one batch for all elements (two axes,
    first part) or one batch per element (three axes, second part). *)
Theorem ElementH1_gbasis_pullback (lbasis : lbasis_t num)
        (mapping : Mapping num) (X : farray num) (i : Z) (tind : tind_t)
        (phi dphi invDF : farray num) (d K L : nat) :
  lbasis X i = Ok (phi, dphi) ->
  mapping_invDF mapping X tind = Ok invDF ->
  shape invDF = [d; d; K; L] ->
  (ndim X = 2%nat -> shape phi = [L] -> shape dphi = [d; L] ->
   exists u du,
     ElementH1_gbasis lbasis mapping X i tind = Ok (Some (u, du)) /\
     shape u = [K; L] /\ shape du = [d; K; L] /\
     forall k l, (k < K)%nat -> (l < L)%nat ->
       get u [k; l] = get phi [l] /\
       forall j, (j < d)%nat ->
         get du [j; k; l]
         = fsum (map (fun a => fmul (get invDF [a; j; k; l])
                                    (get dphi [a; l]))
                     (seq 0 d))) /\
  (ndim X = 3%nat -> shape phi = [K; L] -> shape dphi = [d; K; L] ->
   exists u du,
     ElementH1_gbasis lbasis mapping X i tind = Ok (Some (u, du)) /\
     shape u = [K; L] /\ shape du = [d; K; L] /\
     forall k l, (k < K)%nat -> (l < L)%nat ->
       get u [k; l] = get phi [k; l] /\
       forall j, (j < d)%nat ->
         get du [j; k; l]
         = fsum (map (fun a => fmul (get invDF [a; j; k; l])
                                    (get dphi [a; k; l]))
                     (seq 0 d))).
Proof.
  intros Hl Hinv Sinv. split; intros HX Sphi Sdphi.
  - exact (ElementH1_gbasis_points lbasis mapping X i tind phi dphi invDF
             d K L HX Hl Hinv Sphi Sdphi Sinv).
  - exact (ElementH1_gbasis_points_per_element lbasis mapping X i tind
             phi dphi invDF d K L HX Hl Hinv Sphi Sdphi Sinv).
Qed.

End TransformFacts.

(* ================================================================== *)
(** * The vector-H1 transform *)
(* ================================================================== *)

Section VectorFacts.

Context {num : Type} `{Scalar num}.

Lemma in_shape_app (s1 s2 i1 i2 : list nat) :
  in_shape s1 i1 -> in_shape s2 i2 -> in_shape (s1 ++ s2) (i1 ++ i2).
Proof.
  revert i1. induction s1 as [|n s1 IH]; intros [|i i1]; cbn; try tauto.
  intros (Hi & Hrest) H2. split; [assumption|]. now apply IH.
Qed.

Lemma in_shape_rev (s ix : list nat) :
  in_shape s ix -> in_shape (rev s) (rev ix).
Proof.
  revert ix. induction s as [|n s IH]; intros [|i ix]; cbn; try tauto.
  intros (Hi & Hrest). apply in_shape_app; [now apply IH|].
  cbn. tauto.
Qed.

Lemma bidx_rev_in_shape (r ri : list nat) :
  in_shape r ri -> bidx_rev r ri = ri.
Proof.
  revert ri. induction r as [|n r IH]; intros [|i ri]; cbn; try tauto.
  intros (Hi & Hrest). now rewrite pick_lt, IH.
Qed.

(** Inside the shape, broadcasting reads the operand where asked. *)
Lemma bidx_in_shape (s ix : list nat) : in_shape s ix -> bidx s ix = ix.
Proof.
  intros Hin. unfold bidx.
  rewrite bidx_rev_in_shape by now apply in_shape_rev.
  apply rev_involutive.
Qed.

Lemma bshape_rev_same (r : list nat) : bshape_rev r r = Some r.
Proof.
  induction r as [|n r IH]; cbn; [reflexivity|].
  now rewrite bdim_refl, IH.
Qed.

Lemma broadcast_same (s : list nat) : broadcast_shapes s s = Some s.
Proof.
  unfold broadcast_shapes. rewrite bshape_rev_same. cbn.
  now rewrite rev_involutive.
Qed.

(** [u[n] = v] on rows of the shape of [v]. *)
Lemma setitem_row (u v : farray num) (D : nat) (n : Z) :
  shape u = D :: shape v ->
  0 <= n < Z.of_nat D ->
  exists u',
    setitem u [Int n] v = Ok u' /\
    shape u' = shape u /\
    forall c ix,
      get u' (c :: ix)
      = if (c =? Z.to_nat n)%nat then get v (bidx (shape v) ix)
        else get u (c :: ix).
Proof.
  intros Hs Hn. unfold setitem. rewrite Hs. cbn [norm_items].
  rewrite norm_index_nonneg by assumption.
  cbn [bind view_shape tl]. rewrite broadcast_same, shape_eqb_refl.
  eexists. split; [reflexivity|]. split; [reflexivity|].
  intros c ix. cbn [get src_view].
  destruct (c =? Z.to_nat n)%nat; reflexivity.
Qed.


End VectorFacts.

(* ================================================================== *)
(** * Integration weights *)
(* ================================================================== *)

Section WeightFacts.

Context {num : Type} `{Scalar num}.

Variable elem_t : Type.
Variable elem_gbasis :
  elem_t -> Mapping num -> farray num -> Z -> tind_t
  -> elem_t * res (basis_t num).
Variable get_quadrature : string -> Z -> res (farray num * farray num).

Local Abbreviation init := (InteriorBasis_init elem_gbasis get_quadrature).

(** [np.tile(W, (n, 1))] of a one-axis [W] has [n] rows equal to [W]. *)
Lemma tile_rows_vector {A} (W : ndarray A) (n Nqp : nat) :
  shape W = [Nqp] ->
  shape (tile_rows W n) = [n; Nqp] /\
  forall e q, get (tile_rows W n) [e; q] = get W [q].
Proof.
  intros Hs. unfold tile_rows. rewrite Hs. cbn. split; reflexivity.
Qed.

(** C7.  When the quadrature rule gives [Nqp] points and weights and
    every basis function evaluates, [InteriorBasis.__init__] sets [dx]
    to an array with one entry per mesh element and quadrature point,
    dx[e, q] = |detDF(X)[e, q]| * W[q]. *)
Theorem InteriorBasis_dx (self : GlobalBasis elem_t)
        (X W detDF : farray num) (elem' : elem_t)
        (l : list (basis_t num)) (pairs : list (farray num * farray num))
        (Nqp : nat) :
  get_quadrature (gb_refdom self) (gb_intorder self) = Ok (X, W) ->
  eval_gbasis elem_gbasis (gb_elem self) (gb_mapping self) X
              (range (gb_Nbfun self)) = (elem', Ok l) ->
  mapM unpack l = Ok pairs ->
  mapping_detDF (gb_mapping self) X None = Ok detDF ->
  shape W = [Nqp] ->
  shape detDF = [gb_nt self; Nqp] ->
  exists ib,
    init self = (elem', Ok ib) /\
    ib_nelems ib = gb_nt self /\
    shape (ib_dx ib) = [gb_nt self; Nqp] /\
    forall e q, (e < gb_nt self)%nat -> (q < Nqp)%nat ->
      get (ib_dx ib) [e; q] = fmul (fabs (get detDF [e; q])) (get W [q]).
Proof.
  intros Hq Hb Hz Hdet SW Sdet.
  destruct (tile_rows_vector W (gb_nt self) Nqp SW) as (St & Gt).
  unfold InteriorBasis_init. rewrite Hq, Hb.
  unfold zip_star. rewrite Hz. cbn [bind].
  assert (Hdx : exists dx,
             amul (aabs detDF) (tile_rows W (gb_nt self)) = Ok dx /\
             shape dx = [gb_nt self; Nqp] /\
             forall e q, (e < gb_nt self)%nat -> (q < Nqp)%nat ->
               get dx [e; q] = fmul (fabs (get detDF [e; q])) (get W [q])).
  { unfold amul, map2. cbn [shape aabs amap].
    rewrite Sdet, St, broadcast_same2.
    eexists. split; [reflexivity|]. split; [reflexivity|].
    intros e q He Hlt. cbn [get]. rewrite bidx2 by assumption.
    now rewrite Gt. }
  destruct Hdx as (dx & Hdx & Sdx & Gdx).
  destruct pairs as [|p pairs];
    cbn [bind]; rewrite Hdet; cbn [bind]; rewrite Hdx; cbn [bind];
    eexists; (split; [reflexivity|]); cbn [ib_nelems ib_dx];
    (split; [reflexivity|]); (split; [exact Sdx|exact Gdx]).
Qed.

End WeightFacts.

(* ================================================================== *)
(** * Partition of unity of the P1 triangle (exact arithmetic) *)
(* ================================================================== *)

Section PartitionOfUnity.

Local Open Scope Q_scope.

Lemma ElementTriP1_lbasis_values (X : farray Q) (r L : nat) :
  shape X = [S (S r); L] ->
  exists phi0 dphi0 phi1 dphi1 phi2 dphi2,
    ElementTriP1_lbasis X 0%Z = Ok (phi0, dphi0) /\
    ElementTriP1_lbasis X 1%Z = Ok (phi1, dphi1) /\
    ElementTriP1_lbasis X 2%Z = Ok (phi2, dphi2) /\
    (shape phi0 = [L] /\ shape phi1 = [L] /\ shape phi2 = [L]) /\
    (shape dphi0 = [2%nat; L] /\ shape dphi1 = [2%nat; L]
     /\ shape dphi2 = [2%nat; L]) /\
    (forall l, (l < L)%nat ->
       get phi0 [l] == 1 - get X [0%nat; l] - get X [1%nat; l] /\
       get phi1 [l] == get X [0%nat; l] /\
       get phi2 [l] == get X [1%nat; l]) /\
    (forall l,
       get dphi0 [0%nat; l] == -1 /\ get dphi0 [1%nat; l] == -1 /\
       get dphi1 [0%nat; l] == 1 /\ get dphi1 [1%nat; l] == 0 /\
       get dphi2 [0%nat; l] == 0 /\ get dphi2 [1%nat; l] == 1).
Proof.
  intros Hs. unfold ElementTriP1_lbasis.
  rewrite (getitem_row_ok X (S (S r)) L 0%Z Hs) by lia.
  rewrite (getitem_row_ok X (S (S r)) L 1%Z Hs) by lia.
  cbn [bind Z.eqb Pos.eqb].
  unfold pair_of, stack, lift2, asub, map2.
  cbn [bind mapM shape ssub sadd smul amap array forallb andb].
  rewrite !shape_eqb_refl, broadcast_same. cbn [bind andb List.length].
  do 6 eexists. do 3 (split; [reflexivity|]).
  split; [repeat split|]. split; [repeat split|]. split.
  - intros l Hl. cbn [get]. rewrite bidx_in_shape by (cbn; tauto).
    cbn. repeat split; ring.
  - intros l. cbn. repeat split; ring.
Qed.


End PartitionOfUnity.

(* ================================================================== *)
(** * Accepted local indices of the catalog *)
(* ================================================================== *)

Section CatalogFacts.

Context {num : Type} `{Scalar num}.

(** Arithmetic on arrays of one shape succeeds. *)
Ltac same_shape :=
  repeat first
    [ progress cbn [bind mapM shape ssub sadd smul subs aneg fmuls divs
                    asquare amap array forallb andb List.length is_ok]
    | rewrite broadcast_same
    | rewrite shape_eqb_refl ].

Ltac dispatch i :=
  repeat match goal with
    | |- context [ (i =? ?k)%Z ] =>
        let E := fresh "E" in
        destruct (Z.eqb_spec i k) as [E|E];
        [ subst i; same_shape; reflexivity | ]
    end.

Ltac out_of_range :=
  cbn [is_ok]; symmetry; apply andb_false_iff;
  rewrite Z.leb_gt, Z.ltb_ge; lia.

Ltac open_lbasis :=
  unfold pair_of, stack, lift1, lift2, aadd, asub, amul, map2.

Lemma ElementTriP1_lbasis_range (X : farray num) (r L : nat) (i : Z) :
  shape X = [S (S r); L] ->
  is_ok (ElementTriP1_lbasis X i) = (0 <=? i) && (i <? 3).
Proof.
  intros Hs. unfold ElementTriP1_lbasis.
  rewrite (getitem_row_ok X (S (S r)) L 0 Hs) by lia.
  rewrite (getitem_row_ok X (S (S r)) L 1 Hs) by lia.
  cbn [bind]. open_lbasis. dispatch i. out_of_range.
Qed.

Lemma ElementTriRT0_lbasis_range (X : farray num) (r L : nat) (i : Z) :
  shape X = [S (S r); L] ->
  is_ok (ElementTriRT0_lbasis X i) = (0 <=? i) && (i <? 3).
Proof.
  intros Hs. unfold ElementTriRT0_lbasis.
  rewrite (getitem_row_ok X (S (S r)) L 0 Hs) by lia.
  rewrite (getitem_row_ok X (S (S r)) L 1 Hs) by lia.
  cbn [bind]. open_lbasis. dispatch i. out_of_range.
Qed.

Lemma ElementQ1_lbasis_range (X : farray num) (r L : nat) (i : Z) :
  shape X = [S (S r); L] ->
  is_ok (ElementQ1_lbasis X i) = (0 <=? i) && (i <? 4).
Proof.
  intros Hs. unfold ElementQ1_lbasis.
  rewrite (getitem_row_ok X (S (S r)) L 0 Hs) by lia.
  rewrite (getitem_row_ok X (S (S r)) L 1 Hs) by lia.
  cbn [bind]. open_lbasis. dispatch i. out_of_range.
Qed.

Lemma ElementQ2_lbasis_range (X : farray num) (r L : nat) (i : Z) :
  shape X = [S (S r); L] ->
  is_ok (ElementQ2_lbasis X i) = (0 <=? i) && (i <? 9).
Proof.
  intros Hs. unfold ElementQ2_lbasis.
  rewrite (getitem_row_ok X (S (S r)) L 0 Hs) by lia.
  rewrite (getitem_row_ok X (S (S r)) L 1 Hs) by lia.
  cbn [bind]. open_lbasis. dispatch i. out_of_range.
Qed.

Lemma ElementTetRT0_lbasis_range (X : farray num) (r L : nat) (i : Z) :
  shape X = [S (S (S r)); L] ->
  is_ok (ElementTetRT0_lbasis X i) = (0 <=? i) && (i <? 4).
Proof.
  intros Hs. unfold ElementTetRT0_lbasis.
  rewrite (getitem_row_ok X (S (S (S r))) L 0 Hs) by lia.
  rewrite (getitem_row_ok X (S (S (S r))) L 1 Hs) by lia.
  rewrite (getitem_row_ok X (S (S (S r))) L 2 Hs) by lia.
  cbn [bind]. open_lbasis. dispatch i. out_of_range.
Qed.

Lemma ElementTetN0_lbasis_range (X : farray num) (r L : nat) (i : Z) :
  shape X = [S (S (S r)); L] ->
  is_ok (ElementTetN0_lbasis X i) = (0 <=? i) && (i <? 6).
Proof.
  intros Hs. unfold ElementTetN0_lbasis.
  rewrite (getitem_row_ok X (S (S (S r))) L 0 Hs) by lia.
  rewrite (getitem_row_ok X (S (S (S r))) L 1 Hs) by lia.
  rewrite (getitem_row_ok X (S (S (S r))) L 2 Hs) by lia.
  cbn [bind]. open_lbasis. dispatch i. out_of_range.
Qed.

(** The two P0 elements do not look at the index. *)
Lemma ElementTriP0_lbasis_any_index (X : farray num) (r L : nat) (i : Z) :
  shape X = [S r; L] ->
  is_ok (ElementTriP0_lbasis X i) = true.
Proof.
  intros Hs. unfold ElementTriP0_lbasis.
  rewrite (getitem_row_ok X (S r) L 0 Hs) by lia. reflexivity.
Qed.

Lemma ElementTetP0_lbasis_any_index (X : farray num) (r L : nat) (i : Z) :
  shape X = [S r; L] ->
  is_ok (ElementTetP0_lbasis X i) = true.
Proof.
  intros Hs. unfold ElementTetP0_lbasis.
  rewrite (getitem_row_ok X (S r) L 0 Hs) by lia. reflexivity.
Qed.

End CatalogFacts.

(* ================================================================== *)
(** * The cache of ElementH2 *)
(* ================================================================== *)

Section CacheFacts.

Context {num : Type} `{Scalar num} `{ScalarNaN num}.

Variable linalg_inv : farray num -> res (farray num).
Variable linalg_norm0 : farray num -> res (farray num).

Local Abbreviation gbasis_H2 := (ElementH2_gbasis linalg_inv linalg_norm0).

(** With the cache set, a call neither computes nor changes [V], and it
    reads its mapping through [F] alone. *)
Lemma ElementH2_gbasis_cached (self : ElementH2) (Vm : farray num)
      (mapping : Mapping num) (X : farray num) (i : Z) (tind : tind_t) :
  V self = Some Vm ->
  gbasis_H2 self mapping X i tind
  = (self, gbasis_eval (_pbasis_init (h2_maxdeg self)) Vm
                       (mapping_F mapping) X i tind).
Proof.
  intros HV. unfold ElementH2_gbasis. now rewrite HV.
Qed.

Lemma run_gbasis_cached (self : ElementH2) (Vm : farray num)
      (calls : list call_t) :
  V self = Some Vm ->
  run_gbasis linalg_inv linalg_norm0 self calls
  = (self,
     map (fun c : call_t =>
            let '(mapping, X, i, tind) := c in
            gbasis_eval (_pbasis_init (h2_maxdeg self)) Vm
                        (mapping_F mapping) X i tind)
         calls).
Proof.
  intros HV. induction calls as [|[[[mapping X] i] tind] calls IH].
  - reflexivity.
  - cbn [run_gbasis map]. rewrite (ElementH2_gbasis_cached self Vm) by exact HV.
    now rewrite IH.
Qed.

(** C8.  When the first [gbasis] call on a fresh instance returns, it has
    stored in [V] the inverse of the DOF matrix of its own mesh; every
    later call on the instance, whatever its mapping and mesh, leaves the
    instance as it is and evaluates with that stored [V]. *)
Theorem ElementH2_gbasis_cache (self self1 : ElementH2)
        (m1 : Mapping num) (X1 : farray num) (i1 : Z) (tind1 : tind_t)
        (r1 : res (basis_t num)) :
  V self = None ->
  gbasis_H2 self m1 X1 i1 tind1 = (self1, r1) ->
  is_ok r1 = true ->
  let pb := _pbasis_init (h2_maxdeg self) in
  exists Vm,
    (d <- _eval_dofs linalg_norm0 self pb (mapping_mesh m1) tind1 ;;
     linalg_inv d) = Ok Vm /\
    V self1 = Some Vm /\
    r1 = gbasis_eval pb Vm (mapping_F m1) X1 i1 tind1 /\
    (forall m2 X2 i2 tind2,
       gbasis_H2 self1 m2 X2 i2 tind2
       = (self1, gbasis_eval pb Vm (mapping_F m2) X2 i2 tind2)) /\
    (forall calls,
       run_gbasis linalg_inv linalg_norm0 self1 calls
       = (self1,
          map (fun c : call_t =>
                 let '(m2, X2, i2, tind2) := c in
                 gbasis_eval pb Vm (mapping_F m2) X2 i2 tind2)
              calls)).
Proof.
  intros HV Hcall Hok pb. unfold ElementH2_gbasis in Hcall.
  rewrite HV in Hcall. fold pb in Hcall.
  destruct (d <- _eval_dofs linalg_norm0 self pb (mapping_mesh m1) tind1 ;;
            linalg_inv d) as [Vm|e] eqn:HVm.
  - injection Hcall as <- <-. exists Vm.
    split; [reflexivity|]. split; [reflexivity|]. split; [reflexivity|].
    split.
    + intros m2 X2 i2 tind2.
      now rewrite (ElementH2_gbasis_cached (set_V self Vm) Vm).
    + intros calls.
      now rewrite (run_gbasis_cached (set_V self Vm) Vm).
  - injection Hcall as <- <-. discriminate Hok.
Qed.

End CacheFacts.

(* ================================================================== *)
(** * The layout of the derivative of ElementH2 *)
(* ================================================================== *)

Section LayoutFacts.

Context {num : Type} `{Scalar num} `{ScalarNaN num}.

Lemma bind_ok {A B} (c : res A) (k : A -> res B) (b : B) :
  Py.bind c k = Ok b -> exists a, c = Ok a /\ k a = Ok b.
Proof.
  destruct c as [a|e]; cbn; [|discriminate]. intros Hk. now exists a.
Qed.

Lemma foldM_invariant {A B} (P : B -> Prop) (k : B -> A -> res B)
      (l : list A) (b0 b : B) :
  (forall x a y, P x -> k x a = Ok y -> P y) ->
  P b0 -> foldM k l b0 = Ok b -> P b.
Proof.
  intros Hstep. revert b0. induction l as [|a l IH]; intros b0 HP; cbn.
  - now intros [= <-].
  - intros Hb. apply bind_ok in Hb. destruct Hb as (y & Hy & Hrest).
    apply (IH y); [now apply (Hstep b0 a)|assumption].
Qed.

(** What an assignment [a[items] = v] that succeeds leaves behind. *)
Lemma setitem_ok {A} (a v a' : ndarray A) (items : list item) :
  setitem a items v = Ok a' ->
  exists n,
    norm_items items (shape a) = Ok n /\
    shape a' = shape a /\
    forall ix,
      get a' ix = match src_view n ix with
                  | Some jx => get v (bidx (shape v) jx)
                  | None => get a ix
                  end.
Proof.
  unfold setitem. intros Hset. apply bind_ok in Hset.
  destruct Hset as (n & Hn & Hset). exists n. split; [assumption|].
  destruct (broadcast_shapes (shape v) (view_shape n (shape a)));
    [|discriminate].
  destruct (shape_eqb l (view_shape n (shape a))); [|discriminate].
  injection Hset as <-. split; reflexivity.
Qed.

Lemma setitem_shape {A} (a v a' : ndarray A) (items : list item) :
  setitem a items v = Ok a' -> shape a' = shape a.
Proof.
  intros Hset. apply setitem_ok in Hset. now destruct Hset as (n & _ & Hs & _).
Qed.

Lemma accumulate_shape (Vm : farray num) (itr : nat) (i : Z) (f : pfun)
      (x target t' : farray num) (at_ : list item) :
  accumulate Vm itr i f x target at_ = Ok t' -> shape t' = shape target.
Proof.
  unfold accumulate. intros Hacc.
  do 8 (apply bind_ok in Hacc; destruct Hacc as (? & _ & Hacc)).
  now apply setitem_shape in Hacc.
Qed.

(** An assignment at three integer positions of a (2, 2, 2, ...) array. *)
Lemma setitem_block (a v a' : farray num) (s : list nat) (p q r : nat) :
  shape a = 2%nat :: 2%nat :: 2%nat :: s ->
  (p < 2)%nat -> (q < 2)%nat -> (r < 2)%nat ->
  setitem a [Int (Z.of_nat p); Int (Z.of_nat q); Int (Z.of_nat r)] v = Ok a' ->
  shape a' = shape a /\
  forall p' q' r' ix,
    get a' (p' :: q' :: r' :: ix)
    = if ((p' =? p) && (q' =? q) && (r' =? r))%nat
      then get v (bidx (shape v) ix)
      else get a (p' :: q' :: r' :: ix).
Proof.
  intros Hs Hp Hq Hr Hset. apply setitem_ok in Hset.
  destruct Hset as (n & Hn & Hshape & Hget). split; [assumption|].
  rewrite Hs in Hn. cbn [norm_items] in Hn.
  rewrite !norm_index_nat in Hn by assumption. cbn [bind] in Hn.
  injection Hn as <-.
  intros p' q' r' ix. rewrite Hget. cbn [src_view].
  destruct (p' =? p)%nat, (q' =? q)%nat, (r' =? r)%nat; reflexivity.
Qed.

(** The derivative returned by the evaluation: its shape, and the two
    blocks filled with [u + nan]. *)
Lemma gbasis_eval_layout (pb : power_basis) (Vm : farray num)
      (F : farray num -> tind_t -> res (farray num))
      (X : farray num) (i : Z) (tind : tind_t) (r : basis_t num) :
  gbasis_eval pb Vm F X i tind = Ok r ->
  exists u du x x0,
    r = Some (u, du) /\
    F X tind = Ok x /\ getitem x [Int 0] = Ok x0 /\
    shape u = shape x0 /\
    shape du = [2; 2; 2]%nat ++ shape x0 /\
    forall ix,
      get du (0 :: 1 :: 0 :: ix)%nat = fadd (get u (bidx (shape u) ix)) fnan /\
      get du (0 :: 1 :: 1 :: ix)%nat = fadd (get u (bidx (shape u) ix)) fnan.
Proof.
  unfold gbasis_eval. intros Hev.
  apply bind_ok in Hev. destruct Hev as (x & Hx & Hev).
  apply bind_ok in Hev. destruct Hev as (x0 & Hx0 & Hev).
  rewrite Hx0 in Hev. cbn [bind] in Hev.
  apply bind_ok in Hev. destruct Hev as ([u du] & Hloop & Hev).
  assert (Hinv : shape u = shape x0 /\
                 shape du = [2; 2; 2]%nat ++ shape x0).
  { revert Hloop.
    apply (foldM_invariant
             (fun p : farray num * farray num =>
                shape (fst p) = shape x0 /\
                shape (snd p) = [2; 2; 2]%nat ++ shape x0));
      [|split; reflexivity].
    intros [u1 du1] itr [u2 du2] (Hu1 & Hdu1) Hstep. cbn [fst snd] in *.
    apply bind_ok in Hstep. destruct Hstep as (u' & Hu' & Hstep).
    apply accumulate_shape in Hu'.
    do 5 (apply bind_ok in Hstep;
          let d := fresh "d" in let Hd := fresh "Hd" in
          destruct Hstep as (d & Hd & Hstep);
          apply accumulate_shape in Hd).
    injection Hstep as <- <-. split; congruence. }
  destruct Hinv as (Su & Sdu). cbn [app] in Sdu.
  apply bind_ok in Hev. destruct Hev as (dxy & _ & Hev).
  apply bind_ok in Hev. destruct Hev as (du1 & Hdu1 & Hev).
  apply bind_ok in Hev. destruct Hev as (du2 & Hdu2 & Hev).
  apply bind_ok in Hev. destruct Hev as (du3 & Hdu3 & Hev).
  injection Hev as <-.
  apply setitem_shape in Hdu1.
  apply (setitem_block du1 _ du2 (shape x0) 0 1 0) in Hdu2;
    [|congruence|lia..].
  destruct Hdu2 as (Sdu2 & Gdu2).
  apply (setitem_block du2 _ du3 (shape x0) 0 1 1) in Hdu3;
    [|congruence|lia..].
  destruct Hdu3 as (Sdu3 & Gdu3).
  exists u, du3, x, x0.
  split; [reflexivity|]. split; [assumption|]. split; [assumption|].
  split; [assumption|]. split; [cbn [app]; congruence|].
  intros ix. rewrite !Gdu3, Gdu2. cbn [Nat.eqb andb shape amap get].
  split; reflexivity.
Qed.

End LayoutFacts.

Lemma Float64_add_nan (v : Float64.t) : Float64.add v Float64.nan = Float64.nan.
Proof. destruct v; reflexivity. Qed.



(* ================================================================== *)
(** * The statements on the unit square *)
(* ================================================================== *)

Lemma ok_unwrap {A} (d : A) (c : res A) :
  is_ok c = true -> c = Ok (unwrap d c).
Proof. destruct c; [reflexivity|discriminate]. Qed.

Lemma ok_unwrap_pair {A B} (d : A * B) (c : res (A * B)) :
  is_ok c = true -> c = Ok (fst (unwrap d c), snd (unwrap d c)).
Proof. destruct c as [[a b]|e]; [reflexivity|discriminate]. Qed.

Lemma call_ok_unwrap {S A} (d : A) (c : S * res A) :
  is_ok (snd c) = true -> c = (fst c, Ok (unwrap d (snd c))).
Proof. destruct c as [s [a|e]]; [reflexivity|discriminate]. Qed.

Section Runs.

(** The signs of the three local faces on the unit square: triangle 1
    does not own the shared facet, its local face 0. *)
Example ElementHdiv_orient_unit_square :
  map (fun i => sign_at (ElementHdiv_orient (num := Q) square_mapping i None) 0)
      [0; 1; 2] = [Ok 1; Ok 1; Ok 1] /\
  map (fun i => sign_at (ElementHdiv_orient (num := Q) square_mapping i None) 1)
      [0; 1; 2] = [Ok (-1); Ok 1; Ok 1].
Proof. split; reflexivity. Qed.

(** The weights of the one-point rule: half the area of each triangle
    times 1, and the gradients of the first P1 basis function, (-1, -1)
    on triangle 0 and (0, -1) on triangle 1. *)
Example InteriorBasis_unit_square :
  match snd (InteriorBasis_init (stateless (ElementTriP1 (num := Q)))
                                quadrature1 (square_basis 3)) with
  | Ok ib =>
      map Qred (to_list (ib_dx ib)) = [1 # 2; 1 # 2]%Q /\
      map (fun l => map (fun a => map Qred (to_list a)) (firstn 1 l))
          (ib_basis ib)
      = [[[1 # 3; 1 # 3]]; [[-1 # 1; 0; -1 # 1; -1 # 1]]]%Q
  | Raise _ => False
  end.
Proof. vm_compute. split; reflexivity. Qed.

(** The Raviart-Thomas function of the shared facet, from either side:
    value and divergence change sign with the orientation. *)
Example ElementTriRT0_unit_square :
  match ElementHdiv_gbasis (num := Q) ElementTriRT0_lbasis square_mapping
                           X1 0 None with
  | Ok (Some (u, du)) =>
      shape u = [2; 2; 1]%nat /\
      map Qred (to_list u) = [1 # 3; 1 # 3; -2 # 3; 1 # 3]%Q /\
      map Qred (to_list du) = [2 # 1; -2 # 1]%Q
  | _ => False
  end.
Proof. vm_compute. repeat split; reflexivity. Qed.

End Runs.

Section Witnesses.

Local Abbreviation none2 := (zeros (num := Q) [], zeros (num := Q) []).

(** The lowest-order Raviart-Thomas element on the unit square, at the
    one-point rule, first local face. *)
Lemma ElementHdiv_gbasis_piola_witness :
  let phi := fst (unwrap none2 (ElementTriRT0_lbasis X1 0)) in
  let dphi := snd (unwrap none2 (ElementTriRT0_lbasis X1 0)) in
  let DF := unwrap (zeros []) (mapping_DF square_mapping X1 None) in
  let detDF := unwrap (zeros []) (mapping_detDF square_mapping X1 None) in
  let o := unwrap (full [] 0) (ElementHdiv_orient (num := Q) square_mapping 0 None) in
  exists u du,
    ElementHdiv_gbasis ElementTriRT0_lbasis square_mapping X1 0 None
    = Ok (Some (u, du)) /\
    shape u = [2; 2; 1]%nat /\ shape du = [2; 1]%nat /\
    forall k l, (k < 2)%nat -> (l < 1)%nat ->
      (forall a, (a < 2)%nat ->
         get u [a; k; l]
         = fsum (map (fun j =>
                        fmul (fmul (get DF [a; j; k; l]) (get phi [j; l]))
                             (fmul (fdiv (fofZ 1) (fabs (get detDF [k; l])))
                                   (fofZ (get o [k]))))
                     (seq 0 2))) /\
      get du [k; l]
      = fdiv (get dphi [l])
             (fmul (fabs (get detDF [k; l])) (fofZ (get o [k]))).
Proof.
  intros phi dphi DF detDF o.
  apply (ElementHdiv_gbasis_piola ElementTriRT0_lbasis square_mapping X1 0
           None phi dphi DF detDF o 2 2 1).
  - apply ok_unwrap_pair. vm_compute. reflexivity.
  - reflexivity.
  - reflexivity.
  - apply ok_unwrap. vm_compute. reflexivity.
  - reflexivity.
  - reflexivity.
  - reflexivity.
  - reflexivity.
  - reflexivity.
Defined.

(** The P1 triangle at index 1: one batch of points for all elements,
    and one batch per element. *)
Lemma ElementH1_gbasis_pullback_witness :
  (let phi := fst (unwrap none2 (ElementTriP1_lbasis X1 1)) in
   let dphi := snd (unwrap none2 (ElementTriP1_lbasis X1 1)) in
   let invDF := unwrap (zeros []) (mapping_invDF square_mapping X1 None) in
   exists u du,
     ElementH1_gbasis ElementTriP1_lbasis square_mapping X1 1 None
     = Ok (Some (u, du)) /\
     shape u = [2; 1]%nat /\ shape du = [2; 2; 1]%nat /\
     forall k l, (k < 2)%nat -> (l < 1)%nat ->
       get u [k; l] = get phi [l] /\
       forall j, (j < 2)%nat ->
         get du [j; k; l]
         = fsum (map (fun a => fmul (get invDF [a; j; k; l])
                                    (get dphi [a; l]))
                     (seq 0 2))) /\
  (let phi := fst (unwrap none2 (ElementTriP1_lbasis X2 1)) in
   let dphi := snd (unwrap none2 (ElementTriP1_lbasis X2 1)) in
   let invDF := unwrap (zeros []) (mapping_invDF square_mapping X2 None) in
   exists u du,
     ElementH1_gbasis ElementTriP1_lbasis square_mapping X2 1 None
     = Ok (Some (u, du)) /\
     shape u = [2; 1]%nat /\ shape du = [2; 2; 1]%nat /\
     forall k l, (k < 2)%nat -> (l < 1)%nat ->
       get u [k; l] = get phi [k; l] /\
       forall j, (j < 2)%nat ->
         get du [j; k; l]
         = fsum (map (fun a => fmul (get invDF [a; j; k; l])
                                    (get dphi [a; k; l]))
                     (seq 0 2))).
Proof.
  split; intros phi dphi invDF.
  - apply (proj1 (ElementH1_gbasis_pullback ElementTriP1_lbasis
                    square_mapping X1 1 None phi dphi invDF 2 2 1
                    (ok_unwrap_pair none2 (ElementTriP1_lbasis X1 1) eq_refl)
                    eq_refl eq_refl));
      reflexivity.
  - apply (proj2 (ElementH1_gbasis_pullback ElementTriP1_lbasis
                    square_mapping X2 1 None phi dphi invDF 2 2 1
                    (ok_unwrap_pair none2 (ElementTriP1_lbasis X2 1) eq_refl)
                    eq_refl eq_refl));
      reflexivity.
Defined.


(** The first local face on the unit square: triangle 0 owns its facet
    (0,1) and triangle 1 does not own the shared facet (1,2). *)
Lemma ElementHdiv_orient_sign_witness :
  exists o,
    ElementHdiv_orient (num := Q) square_mapping 0 None = Ok o /\
    shape o = [2%nat] /\
    forall t, (t < 2)%nat ->
      (get o [t] = 1 <->
       first_adjacent (num := Q) square_mesh 0 t = Z.of_nat t) /\
      (get o [t] = -1 <->
       first_adjacent (num := Q) square_mesh 0 t <> Z.of_nat t) /\
      (get o [t] = 1 \/ get o [t] = -1).
Proof.
  apply (ElementHdiv_orient_sign (num := Q) square_mapping 0 None 2 3 5).
  split; [exists 3%nat; reflexivity|]. split; [reflexivity|].
  split; [exists 1%nat; reflexivity|]. split; [lia|].
  intros [|[|t]] Ht; cbn; lia.
Defined.

(** The weights of the one-point rule on the unit square. *)
Lemma InteriorBasis_dx_witness :
  let detDF := unwrap (zeros []) (mapping_detDF (num := Q) square_mapping X1 None) in
  exists ib,
    InteriorBasis_init (stateless ElementTriP1) quadrature1 (square_basis 3)
    = (tt, Ok ib) /\
    ib_nelems ib = 2%nat /\
    shape (ib_dx ib) = [2; 1]%nat /\
    forall e q, (e < 2)%nat -> (q < 1)%nat ->
      get (ib_dx ib) [e; q] = fmul (fabs (get detDF [e; q])) (get W1 [q]).
Proof.
  intros detDF.
  apply (InteriorBasis_dx unit (stateless ElementTriP1) quadrature1
           (square_basis 3) X1 W1 detDF tt
           (map (fun j => unwrap None
                            (gbasis ElementTriP1 square_mapping X1
                                    (Z.of_nat j) None))
                (range 3))
           (map (fun j => unwrap none2
                            (unpack
                               (unwrap None
                                  (gbasis ElementTriP1 square_mapping X1
                                          (Z.of_nat j) None))))
                (range 3))
           1);
    reflexivity.
Defined.


(** C4.  Out-of-range local indices are not refused by the two P0
    elements: [ElementTriP0.lbasis] and [ElementTetP0.lbasis] return for
    the local index 5, which is outside [0, 1), what they return for
    index 0, where [ElementTriP1.lbasis] raises for index 5. *)
Theorem ElementTriP0_lbasis_out_of_range :
  is_ok (ElementTriP0_lbasis (num := Q) X1 5) = true /\
  ElementTriP0_lbasis (num := Q) X1 5 = ElementTriP0_lbasis X1 0 /\
  is_ok (ElementTetP0_lbasis (num := Q) X1 5) = true /\
  ElementTetP0_lbasis (num := Q) X1 5 = ElementTetP0_lbasis X1 0 /\
  ElementTriP1_lbasis (num := Q) X1 5 = Raise (Exception "!").
Proof.
  repeat split; reflexivity.
Qed.

(** The array [ElementHdiv.orient] returns for a subset is indexed by
    mesh element, not by position in the subset: for the subset [1] of
    the unit square it has two entries, and its entry 0 is the sign of
    element 0 while element 1, the only one of the subset, has sign -1. *)
Example ElementHdiv_orient_subset_positions :
  let subset := Some (of_list 0 [1]) in
  option_map (@shape Z)
             (unwrap None
                (o <- ElementHdiv_orient (num := Q) square_mapping 0 subset ;;
                 Ok (Some o)))
  = Some [2%nat] /\
  sign_at (ElementHdiv_orient (num := Q) square_mapping 0 subset) 0 = Ok 1 /\
  sign_at (ElementHdiv_orient (num := Q) square_mapping 0 None) 1 = Ok (-1).
Proof.
  repeat split; reflexivity.
Qed.

End Witnesses.

Section WitnessesFloat64.

Import Float64Linalg.

Local Abbreviation first_call :=
  (ElementH2_gbasis inv1 norm0 ElementConstant square_mapping X1 0 None).

(** A fresh instance evaluated on the unit square: the call returns, and
    the instance it leaves answers every later call from its cache. *)
Lemma ElementH2_gbasis_cache_witness :
  let pb := _pbasis_init (num := Float64.t) 0 in
  exists Vm,
    (d <- _eval_dofs norm0 ElementConstant pb square_mesh None ;; inv1 d)
    = Ok Vm /\
    V (fst first_call) = Some Vm /\
    snd first_call = gbasis_eval pb Vm (mapping_F square_mapping) X1 0 None /\
    (forall m2 X2 i2 tind2,
       ElementH2_gbasis inv1 norm0 (fst first_call) m2 X2 i2 tind2
       = (fst first_call, gbasis_eval pb Vm (mapping_F m2) X2 i2 tind2)) /\
    (forall calls,
       run_gbasis inv1 norm0 (fst first_call) calls
       = (fst first_call,
          map (fun c : call_t =>
                 let '(m2, X2, i2, tind2) := c in
                 gbasis_eval pb Vm (mapping_F m2) X2 i2 tind2)
              calls)).
Proof.
  apply (ElementH2_gbasis_cache inv1 norm0 ElementConstant (fst first_call)
           square_mapping X1 0 None (snd first_call)).
  - reflexivity.
  - apply surjective_pairing.
  - vm_compute. reflexivity.
Defined.


End WitnessesFloat64.

(* ================================================================== *)
(** * Orientation: the default rule and the edge rule *)
(* ================================================================== *)

Section OrientMore.

Context {num : Type} `{Scalar num}.

(** X1.  [Element.orient] returns the sign 1 everywhere: one entry per
    entry of the subset when a subset is given, one per mesh element
    otherwise. *)
Theorem Element_orient_ones (mapping : Mapping num) (i : Z) :
  (forall ti : ndarray Z,
     exists o, Element_orient mapping i (Some ti) = Ok o /\
               shape o = shape ti /\ forall ix, get o ix = 1) /\
  (forall nv nt : nat,
     shape (mesh_t (mapping_mesh mapping)) = [S nv; nt] ->
     exists o, Element_orient mapping i None = Ok o /\
               shape o = [nt] /\ forall ix, get o ix = 1).
Proof.
  split.
  - intros ti. eexists. split; [reflexivity|]. split; [reflexivity|].
    intros ix. cbn. lia.
  - intros nv nt Ht. unfold Element_orient.
    rewrite (getitem_row_ok _ (S nv) nt 0 Ht) by lia. cbn [bind].
    eexists. split; [reflexivity|]. split; [reflexivity|].
    intros ix. cbn [amap get]. lia.
Qed.

Lemma ElementHcurl_orient_ok (mapping : Mapping num) (i : Z) (tind : tind_t)
      (nv nt : nat) :
  shape (mesh_t (mapping_mesh mapping)) = [nv; nt] ->
  (4 <= nv)%nat ->
  0 <= i < 6 ->
  exists o,
    ElementHcurl_orient mapping i tind = Ok o /\
    shape o = [nt] /\
    forall t, (t < nt)%nat ->
      get o [t]
      = 1 - 2 * Z_of_bool
                  (get (mesh_t (mapping_mesh mapping)) [edge_start i; t]
                   >? get (mesh_t (mapping_mesh mapping)) [edge_end i; t]).
Proof.
  intros Ht Hnv Hi.
  assert (Hcases : i = 0 \/ i = 1 \/ i = 2 \/ i = 3 \/ i = 4 \/ i = 5) by lia.
  unfold ElementHcurl_orient.
  assert (Hrow : forall a, 0 <= a < 4 ->
             getitem (mesh_t (mapping_mesh mapping)) [Int a; All]
             = Ok (mk [nt] (fun ix => get (mesh_t (mapping_mesh mapping))
                                          (Z.to_nat a :: hd 0%nat ix :: tl ix)))).
  { intros a Ha. apply (getitem_row_ok _ nv nt a Ht). lia. }
  destruct Hcases as [->|[->|[->|[->|[->| ->]]]]];
    repeat match goal with
      | |- context [list_getitem ?d ?l ?i] =>
          let v := eval vm_compute in (list_getitem d l i) in
          change (list_getitem d l i) with v
      end;
    cbn [bind]; do 2 (rewrite Hrow by lia; cbn [bind]);
    unfold map2; cbn [shape]; rewrite broadcast_same;
    (eexists; split; [reflexivity|]; split; [reflexivity|]);
    intros t Hlt; cbn [amap get];
    rewrite bidx_in_shape by (cbn; tauto); reflexivity.
Qed.

(** X2.  [ElementHcurl.orient] gives edge [i] of element [t] the sign -1
    when the vertex number at its first local endpoint is greater than
    the one at its second, and +1 otherwise (also when they are equal). *)
Theorem ElementHcurl_orient_sign (mapping : Mapping num) (i : Z)
        (tind : tind_t) (nv nt : nat) :
  shape (mesh_t (mapping_mesh mapping)) = [nv; nt] ->
  (4 <= nv)%nat ->
  0 <= i < 6 ->
  exists o,
    ElementHcurl_orient mapping i tind = Ok o /\
    shape o = [nt] /\
    forall t, (t < nt)%nat ->
      let a := get (mesh_t (mapping_mesh mapping)) [edge_start i; t] in
      let b := get (mesh_t (mapping_mesh mapping)) [edge_end i; t] in
      (get o [t] = -1 <-> a > b) /\ (get o [t] = 1 <-> a <= b).
Proof.
  intros Ht Hnv Hi.
  destruct (ElementHcurl_orient_ok mapping i tind nv nt Ht Hnv Hi)
    as (o & Ho & So & Go).
  exists o. split; [assumption|]. split; [assumption|].
  intros t Hlt a b. rewrite (Go t Hlt). fold a b.
  destruct (Z.gtb_spec a b); cbn [Z_of_bool]; split; split; intros; lia.
Qed.

(** X3.  [ElementHcurl.orient] takes its edge from two Python lists of
    length 6: a local index outside [-6, 6) raises IndexError, and an
    index in [-6, 0) is read from the end, so [i] and [i + 6] give the
    same signs. *)
Theorem ElementHcurl_orient_index (mapping : Mapping num) (i : Z)
        (tind : tind_t) (nv nt : nat) :
  shape (mesh_t (mapping_mesh mapping)) = [nv; nt] ->
  (4 <= nv)%nat ->
  (i < -6 \/ 6 <= i ->
   ElementHcurl_orient mapping i tind = Raise IndexError) /\
  (-6 <= i < 0 ->
   ElementHcurl_orient mapping i tind
   = ElementHcurl_orient mapping (i + 6) tind /\
   is_ok (ElementHcurl_orient mapping i tind) = true).
Proof.
  intros Ht Hnv. split.
  - intros Hout. unfold ElementHcurl_orient, list_getitem, norm_index.
    cbn [List.length].
    replace ((0 <=? i) && (i <? Z.of_nat 6)) with false
      by (symmetry; apply andb_false_iff; rewrite Z.leb_gt, Z.ltb_ge; lia).
    replace ((- Z.of_nat 6 <=? i) && (i <? 0)) with false
      by (symmetry; apply andb_false_iff; rewrite Z.leb_gt, Z.ltb_ge; lia).
    reflexivity.
  - intros Hneg.
    assert (Hcases : i = -6 \/ i = -5 \/ i = -4 \/ i = -3 \/ i = -2 \/ i = -1)
      by lia.
    split.
    + destruct Hcases as [->|[->|[->|[->|[->| ->]]]]]; reflexivity.
    + destruct (ElementHcurl_orient_ok mapping (i + 6) tind nv nt Ht Hnv)
        as (o & Ho & _); [lia|].
      replace (ElementHcurl_orient mapping i tind)
        with (ElementHcurl_orient mapping (i + 6) tind)
        by (destruct Hcases as [->|[->|[->|[->|[->| ->]]]]]; reflexivity).
      now rewrite Ho.
Qed.

Lemma norm_index_negative (n : nat) (i : Z) :
  - Z.of_nat n <= i < 0 -> norm_index n i = Ok (Z.to_nat (Z.of_nat n + i)).
Proof.
  intros Hi. unfold norm_index.
  replace ((0 <=? i) && (i <? Z.of_nat n)) with false
    by (symmetry; apply andb_false_iff; rewrite Z.leb_gt; lia).
  replace ((- Z.of_nat n <=? i) && (i <? 0)) with true
    by (symmetry; apply andb_true_iff; rewrite Z.leb_le, Z.ltb_lt; lia).
  reflexivity.
Qed.

Lemma norm_index_outside (n : nat) (i : Z) :
  i < - Z.of_nat n \/ Z.of_nat n <= i -> norm_index n i = Raise IndexError.
Proof.
  intros Hi. unfold norm_index.
  replace ((0 <=? i) && (i <? Z.of_nat n)) with false
    by (symmetry; apply andb_false_iff; rewrite Z.leb_gt, Z.ltb_ge; lia).
  replace ((- Z.of_nat n <=? i) && (i <? 0)) with false
    by (symmetry; apply andb_false_iff; rewrite Z.leb_gt, Z.ltb_ge; lia).
  reflexivity.
Qed.

(** X4.  [ElementHdiv.orient] reads row [i] of the element-to-face
    table as numpy does: a local index outside [-nl, nl), [nl] being the
    number of rows, raises IndexError, and an index in [-nl, 0) counts
    from the last row, so [i] and [i + nl] give the same result. *)
Theorem ElementHdiv_orient_index (mapping : Mapping num) (i : Z)
        (tind : tind_t) (nl nt : nat) :
  shape (mesh_t2f (mapping_mesh mapping)) = [nl; nt] ->
  (i < - Z.of_nat nl \/ Z.of_nat nl <= i ->
   ElementHdiv_orient mapping i tind = Raise IndexError) /\
  (- Z.of_nat nl <= i < 0 ->
   ElementHdiv_orient mapping i tind
   = ElementHdiv_orient mapping (i + Z.of_nat nl) tind).
Proof.
  intros Hs. split; intros Hi; unfold ElementHdiv_orient, getitem;
    rewrite Hs; cbn [norm_items].
  - now rewrite norm_index_outside.
  - rewrite norm_index_negative by assumption.
    rewrite norm_index_nonneg by lia.
    now replace (i + Z.of_nat nl) with (Z.of_nat nl + i) by lia.
Qed.

End OrientMore.

(* ================================================================== *)
(** * The Piola transforms on subsets and in three dimensions *)
(* ================================================================== *)

Section PiolaMore.

Context {num : Type} `{Scalar num}.

(** X5.  [ElementHcurl.gbasis] is the covariant Piola transform: at
    element [k] and point [l] the value is the transposed inverse
    Jacobian contracted with the reference value, each term times the
    sign [orient] returns for [k], and the derivative is the Jacobian
    contracted with the reference curl, each term times (1/det) times
    that sign; the determinant enters with its sign. *)
Theorem ElementHcurl_gbasis_piola (lbasis : lbasis_t num)
        (mapping : Mapping num) (X : farray num) (i : Z) (tind : tind_t)
        (phi dphi DF invDF detDF : farray num) (o : ndarray Z)
        (d K L : nat) :
  lbasis X i = Ok (phi, dphi) ->
  mapping_DF mapping X tind = Ok DF ->
  mapping_invDF mapping X tind = Ok invDF ->
  mapping_detDF mapping X tind = Ok detDF ->
  ElementHcurl_orient mapping i tind = Ok o ->
  shape phi = [d; L] -> shape dphi = [d; L] ->
  shape DF = [d; d; K; L] -> shape invDF = [d; d; K; L] ->
  shape detDF = [K; L] -> shape o = [K] ->
  exists u du,
    ElementHcurl_gbasis lbasis mapping X i tind = Ok (Some (u, du)) /\
    shape u = [d; K; L] /\ shape du = [d; K; L] /\
    forall a k l, (a < d)%nat -> (k < K)%nat -> (l < L)%nat ->
      get u [a; k; l]
      = fsum (map (fun j =>
                     fmul (fmul (get invDF [j; a; k; l]) (get phi [j; l]))
                          (fofZ (get o [k])))
                  (seq 0 d)) /\
      get du [a; k; l]
      = fsum (map (fun j =>
                     fmul (fmul (get DF [a; j; k; l]) (get dphi [j; l]))
                          (fmul (fdiv (fofZ 1) (get detDF [k; l]))
                                (fofZ (get o [k]))))
                  (seq 0 d)).
Proof.
  intros Hl HDF Hinv Hdet Ho Sphi Sdphi SDF Sinv Sdet So.
  destruct (getitem_column o K So) as (c & Hc & Sc & Gc).
  unfold ElementHcurl_gbasis.
  rewrite Hl; cbn [bind]. rewrite HDF; cbn [bind].
  rewrite Hinv; cbn [bind]. rewrite Hdet; cbn [bind].
  rewrite Ho; cbn [bind].
  unfold einsum_ijkl_il_k_jkl. cbn [shape as_float amap].
  rewrite Sinv, Sphi, So, !bdim_refl. cbn [bind]. rewrite Hc; cbn [bind].
  unfold amul, map2. cbn [shape sdiv as_float amap].
  rewrite Sdet, Sc, broadcast_rows. cbn [bind].
  unfold einsum_ijkl_jl_kl_ikl. cbn [shape].
  rewrite SDF, Sdphi. unfold bdim3. rewrite !bdim_refl.
  eexists; eexists. split; [reflexivity|]. split; [reflexivity|].
  split; [reflexivity|].
  intros a k l Ha Hk Hlt. cbn [get]. split.
  - apply fsum_ext. intros j Hj. now rewrite !pick_lt by assumption.
  - apply fsum_ext. intros j Hj. rewrite !pick_lt by assumption.
    rewrite bidx2, bidx_col by assumption.
    cbn [get sdiv as_float amap]. now rewrite Gc.
Qed.

(** The rows of [ElementHdiv.gbasis] when [orient] has as many entries
    as [detDF] has rows. *)
Lemma ElementHdiv_gbasis_rows (lbasis : lbasis_t num)
      (mapping : Mapping num) (X : farray num) (i : Z) (tind : tind_t)
      (phi dphi DF detDF : farray num) (o : ndarray Z) (d K L : nat) :
  lbasis X i = Ok (phi, dphi) ->
  mapping_DF mapping X tind = Ok DF ->
  mapping_detDF mapping X tind = Ok detDF ->
  ElementHdiv_orient mapping i tind = Ok o ->
  shape phi = [d; L] -> shape dphi = [L] ->
  shape DF = [d; d; K; L] -> shape detDF = [K; L] -> shape o = [K] ->
  exists u du,
    ElementHdiv_gbasis lbasis mapping X i tind = Ok (Some (u, du)) /\
    shape u = [d; K; L] /\ shape du = [K; L] /\
    forall k l, (k < K)%nat -> (l < L)%nat ->
      (forall a, (a < d)%nat ->
         get u [a; k; l]
         = fsum (map (fun j =>
                        fmul (fmul (get DF [a; j; k; l]) (get phi [j; l]))
                             (fmul (fdiv (fofZ 1) (fabs (get detDF [k; l])))
                                   (fofZ (get o [k]))))
                     (seq 0 d))) /\
      get du [k; l]
      = fdiv (get dphi [l])
             (fmul (fabs (get detDF [k; l])) (fofZ (get o [k]))).
Proof.
  intros Hl HDF Hdet Ho Sphi Sdphi SDF Sdet So.
  destruct (getitem_column o K So) as (c & Hc & Sc & Gc).
  unfold ElementHdiv_gbasis.
  rewrite Hl; cbn [bind]. rewrite HDF; cbn [bind].
  rewrite Hdet; cbn [bind]. rewrite Ho; cbn [bind]. rewrite Hc; cbn [bind].
  unfold amul, adiv, map2.
  cbn [shape sdiv aabs as_float amap]. rewrite Sdet, Sc, broadcast_rows.
  cbn [bind]. unfold einsum_ijkl_jl_kl_ikl. cbn [shape].
  rewrite SDF, Sphi. unfold bdim3. rewrite !bdim_refl. cbn [bind].
  rewrite Sdphi, broadcast_last. cbn [bind].
  eexists; eexists. split; [reflexivity|]. split; [reflexivity|].
  split; [reflexivity|].
  intros k l Hk Hlt. cbn [get]. split.
  - intros a Ha. apply fsum_ext. intros j Hj.
    rewrite !pick_lt by assumption.
    rewrite bidx2, bidx_col by assumption.
    cbn [get sdiv aabs as_float amap]. now rewrite Gc.
  - rewrite bidx_last, bidx2, bidx_col by assumption.
    cbn [get sdiv aabs as_float amap].
    rewrite ?bidx2, ?bidx_col by assumption.
    cbn [get sdiv aabs as_float amap]. now rewrite ?Gc.
Qed.

(** X6.  On a subset, [ElementHdiv.gbasis] still multiplies by the signs
    of the whole mesh.  When the subset has as many entries as the mesh
    has elements, row [k] of the result, which belongs to the element
    the subset lists at position [k], carries the sign of element [k]:
    +1 when the first element adjacent to face [i] of element [k] is [k],
    and -1 otherwise. *)
Theorem ElementHdiv_gbasis_subset_sign (lbasis : lbasis_t num)
        (mapping : Mapping num) (X : farray num) (i : Z) (tind : tind_t)
        (phi dphi DF detDF : farray num) (d nt nl nf L : nat) :
  faces_ok (mapping_mesh mapping) i nt nl nf ->
  lbasis X i = Ok (phi, dphi) ->
  mapping_DF mapping X tind = Ok DF ->
  mapping_detDF mapping X tind = Ok detDF ->
  shape phi = [d; L] -> shape dphi = [L] ->
  shape DF = [d; d; nt; L] -> shape detDF = [nt; L] ->
  exists u du,
    ElementHdiv_gbasis lbasis mapping X i tind = Ok (Some (u, du)) /\
    forall k l, (k < nt)%nat -> (l < L)%nat ->
      let s := if first_adjacent (mapping_mesh mapping) i k =? Z.of_nat k
               then 1 else -1 in
      get du [k; l]
      = fdiv (get dphi [l]) (fmul (fabs (get detDF [k; l])) (fofZ s)) /\
      forall a, (a < d)%nat ->
        get u [a; k; l]
        = fsum (map (fun j =>
                       fmul (fmul (get DF [a; j; k; l]) (get phi [j; l]))
                            (fmul (fdiv (fofZ 1) (fabs (get detDF [k; l])))
                                  (fofZ s)))
                    (seq 0 d)).
Proof.
  intros Hok Hl HDF Hdet Sphi Sdphi SDF Sdet.
  destruct (ElementHdiv_orient_ok mapping i tind nt nl nf Hok)
    as (o & Ho & So & Go).
  destruct (ElementHdiv_gbasis_rows lbasis mapping X i tind phi dphi DF detDF
              o d nt L Hl HDF Hdet Ho Sphi Sdphi SDF Sdet So)
    as (u & du & Hg & _ & _ & Hv).
  exists u, du. split; [assumption|].
  intros k l Hk Hlt s.
  assert (Hs : get o [k] = s).
  { rewrite (Go k Hk). unfold s.
    destruct (first_adjacent (mapping_mesh mapping) i k =? Z.of_nat k);
      reflexivity. }
  destruct (Hv k l Hk Hlt) as (Hu & Hdu). rewrite <- Hs. split.
  - exact Hdu.
  - exact Hu.
Qed.

(** X7.  A subset whose number of elements is neither 1 nor the number
    of mesh elements makes [ElementHdiv.gbasis] raise ValueError: the
    determinants of the subset and the signs of the whole mesh cannot be
    multiplied. *)
Theorem ElementHdiv_gbasis_subset_mismatch (lbasis : lbasis_t num)
        (mapping : Mapping num) (X : farray num) (i : Z) (tind : tind_t)
        (phi dphi DF detDF : farray num) (K nt nl nf L : nat) :
  faces_ok (mapping_mesh mapping) i nt nl nf ->
  lbasis X i = Ok (phi, dphi) ->
  mapping_DF mapping X tind = Ok DF ->
  mapping_detDF mapping X tind = Ok detDF ->
  shape detDF = [K; L] ->
  K <> nt -> K <> 1%nat -> nt <> 1%nat ->
  ElementHdiv_gbasis lbasis mapping X i tind = Raise ValueError.
Proof.
  intros Hok Hl HDF Hdet Sdet HK HK1 Hnt1.
  destruct (ElementHdiv_orient_ok mapping i tind nt nl nf Hok)
    as (o & Ho & So & _).
  destruct (getitem_column o nt So) as (c & Hc & Sc & _).
  unfold ElementHdiv_gbasis.
  rewrite Hl; cbn [bind]. rewrite HDF; cbn [bind].
  rewrite Hdet; cbn [bind]. rewrite Ho; cbn [bind]. rewrite Hc; cbn [bind].
  unfold amul, map2. cbn [shape sdiv aabs as_float amap].
  rewrite Sdet, Sc. unfold broadcast_shapes. cbn [rev app bshape_rev].
  rewrite bdim_one_r. unfold bdim.
  destruct (Nat.eqb_spec K nt); [contradiction|].
  destruct (Nat.eqb_spec K 1); [contradiction|].
  destruct (Nat.eqb_spec nt 1); [contradiction|].
  reflexivity.
Qed.

End PiolaMore.

Section OrientWitnesses.

Local Abbreviation none2 := (zeros (num := Q) [], zeros (num := Q) []).

Lemma Element_orient_ones_witness :
  (forall ti : ndarray Z,
     exists o, Element_orient (num := Q) square_mapping 0 (Some ti) = Ok o /\
               shape o = shape ti /\ forall ix, get o ix = 1) /\
  exists o, Element_orient (num := Q) square_mapping 0 None = Ok o /\
            shape o = [2%nat] /\ forall ix, get o ix = 1.
Proof.
  split.
  - apply (proj1 (Element_orient_ones (num := Q) square_mapping 0)).
  - apply (proj2 (Element_orient_ones (num := Q) square_mapping 0) 2%nat 2%nat).
    reflexivity.
Defined.

(** Edge 0 of the two tetrahedra: vertices (0, 1) and (4, 1). *)
Lemma ElementHcurl_orient_sign_witness :
  exists o,
    ElementHcurl_orient (num := Q) tet_mapping 0 None = Ok o /\
    shape o = [2%nat] /\
    forall t, (t < 2)%nat ->
      let a := get (mesh_t (tet_mesh (num := Q))) [edge_start 0; t] in
      let b := get (mesh_t (tet_mesh (num := Q))) [edge_end 0; t] in
      (get o [t] = -1 <-> a > b) /\ (get o [t] = 1 <-> a <= b).
Proof.
  apply (ElementHcurl_orient_sign (num := Q) tet_mapping 0 None 4 2);
    [reflexivity|lia|lia].
Defined.

Lemma ElementHcurl_orient_index_witness :
  (ElementHcurl_orient (num := Q) tet_mapping 6 None = Raise IndexError) /\
  (ElementHcurl_orient (num := Q) tet_mapping (-1) None
   = ElementHcurl_orient tet_mapping (-1 + 6) None /\
   is_ok (ElementHcurl_orient (num := Q) tet_mapping (-1) None) = true).
Proof.
  split.
  - apply (proj1 (ElementHcurl_orient_index (num := Q) tet_mapping 6 None
                    4 2 eq_refl ltac:(lia))). lia.
  - apply (proj2 (ElementHcurl_orient_index (num := Q) tet_mapping (-1) None
                    4 2 eq_refl ltac:(lia))). lia.
Defined.

Lemma ElementHdiv_orient_index_witness :
  (ElementHdiv_orient (num := Q) square_mapping 3 None = Raise IndexError) /\
  (ElementHdiv_orient (num := Q) square_mapping (-1) None
   = ElementHdiv_orient square_mapping (-1 + 3) None).
Proof.
  split.
  - apply (proj1 (ElementHdiv_orient_index (num := Q) square_mapping 3 None
                    3 2 eq_refl)). cbn. lia.
  - apply (proj2 (ElementHdiv_orient_index (num := Q) square_mapping (-1) None
                    3 2 eq_refl)). cbn. lia.
Defined.

(** The lowest-order Nedelec element on the two tetrahedra. *)
Lemma ElementHcurl_gbasis_piola_witness :
  let phi := fst (unwrap none2 (ElementTetN0_lbasis X3 0)) in
  let dphi := snd (unwrap none2 (ElementTetN0_lbasis X3 0)) in
  let DF := unwrap (zeros []) (mapping_DF tet_mapping X3 None) in
  let invDF := unwrap (zeros []) (mapping_invDF tet_mapping X3 None) in
  let detDF := unwrap (zeros []) (mapping_detDF tet_mapping X3 None) in
  let o := unwrap (full [] 0)
                  (ElementHcurl_orient (num := Q) tet_mapping 0 None) in
  exists u du,
    ElementHcurl_gbasis ElementTetN0_lbasis tet_mapping X3 0 None
    = Ok (Some (u, du)) /\
    shape u = [3; 2; 1]%nat /\ shape du = [3; 2; 1]%nat /\
    forall a k l, (a < 3)%nat -> (k < 2)%nat -> (l < 1)%nat ->
      get u [a; k; l]
      = fsum (map (fun j =>
                     fmul (fmul (get invDF [j; a; k; l]) (get phi [j; l]))
                          (fofZ (get o [k])))
                  (seq 0 3)) /\
      get du [a; k; l]
      = fsum (map (fun j =>
                     fmul (fmul (get DF [a; j; k; l]) (get dphi [j; l]))
                          (fmul (fdiv (fofZ 1) (get detDF [k; l]))
                                (fofZ (get o [k]))))
                  (seq 0 3)).
Proof.
  intros phi dphi DF invDF detDF o.
  apply (ElementHcurl_gbasis_piola ElementTetN0_lbasis tet_mapping X3 0 None
           phi dphi DF invDF detDF o 3 2 1);
    reflexivity.
Defined.

(** The two triangles of the unit square listed in the order (1, 0). *)
Lemma ElementHdiv_gbasis_subset_sign_witness :
  let tind := Some (of_list 0 [1; 0]) in
  let phi := fst (unwrap none2 (ElementTriRT0_lbasis X1 0)) in
  let dphi := snd (unwrap none2 (ElementTriRT0_lbasis X1 0)) in
  let DF := unwrap (zeros []) (mapping_DF square_mapping X1 tind) in
  let detDF := unwrap (zeros []) (mapping_detDF square_mapping X1 tind) in
  exists u du,
    ElementHdiv_gbasis ElementTriRT0_lbasis square_mapping X1 0 tind
    = Ok (Some (u, du)) /\
    forall k l, (k < 2)%nat -> (l < 1)%nat ->
      let s := if first_adjacent (num := Q) square_mesh 0 k =? Z.of_nat k
               then 1 else -1 in
      get du [k; l]
      = fdiv (get dphi [l]) (fmul (fabs (get detDF [k; l])) (fofZ s)) /\
      forall a, (a < 2)%nat ->
        get u [a; k; l]
        = fsum (map (fun j =>
                       fmul (fmul (get DF [a; j; k; l]) (get phi [j; l]))
                            (fmul (fdiv (fofZ 1) (fabs (get detDF [k; l])))
                                  (fofZ s)))
                    (seq 0 2)).
Proof.
  intros tind phi dphi DF detDF.
  apply (ElementHdiv_gbasis_subset_sign ElementTriRT0_lbasis square_mapping
           X1 0 tind phi dphi DF detDF 2 2 3 5 1);
    try reflexivity.
  split; [exists 3%nat; reflexivity|]. split; [reflexivity|].
  split; [exists 1%nat; reflexivity|]. split; [lia|].
  intros [|[|t]] Ht; cbn; lia.
Defined.

(** A subset of three entries on the mesh of two triangles. *)
Lemma ElementHdiv_gbasis_subset_mismatch_witness :
  ElementHdiv_gbasis (num := Q) ElementTriRT0_lbasis square_mapping X1 0
                     (Some (of_list 0 [0; 1; 0]))
  = Raise ValueError.
Proof.
  apply (ElementHdiv_gbasis_subset_mismatch ElementTriRT0_lbasis
           square_mapping X1 0 (Some (of_list 0 [0; 1; 0]))
           (fst (unwrap none2 (ElementTriRT0_lbasis X1 0)))
           (snd (unwrap none2 (ElementTriRT0_lbasis X1 0)))
           (unwrap (zeros []) (mapping_DF square_mapping X1
                                          (Some (of_list 0 [0; 1; 0]))))
           (unwrap (zeros []) (mapping_detDF square_mapping X1
                                             (Some (of_list 0 [0; 1; 0]))))
           3 2 3 5 1);
    try reflexivity; try lia.
  split; [exists 3%nat; reflexivity|]. split; [reflexivity|].
  split; [exists 1%nat; reflexivity|]. split; [lia|].
  intros [|[|t]] Ht; cbn; lia.
Defined.

End OrientWitnesses.

(* ================================================================== *)
(** * The reference bases of the catalog (exact arithmetic) *)
(* ================================================================== *)

Section ReferenceFacts.

Local Open Scope Q_scope.

Ltac same_shape :=
  repeat first
    [ progress cbn [bind mapM shape ssub sadd smul subs aneg fmuls divs
                    asquare amap array forallb andb List.length is_ok]
    | rewrite broadcast_same
    | rewrite shape_eqb_refl ].

Ltac open_lbasis :=
  unfold pair_of, stack, lift1, lift2, aadd, asub, amul, map2.

(** Evaluate [lbasis X i] for the literal indices of the goal, [X] having
    the rows [X[0, :]], [X[1, :]] (and [X[2, :]]). *)
Ltac rows :=
  repeat match goal with
    | Hs : shape ?X = _ |- context [getitem ?X [Int ?a; All]] =>
        rewrite (getitem_row_ok X _ _ a Hs) by lia
    end;
  change (Z.to_nat 0) with 0%nat;
  change (Z.to_nat 1) with 1%nat;
  change (Z.to_nat 2) with 2%nat.

Ltac points :=
  cbn [unwrap fst snd get amap nth hd tl fmuls ssub sadd smul subs
       aneg divs asquare];
  repeat match goal with
    | |- context [bidx ?s (?l :: nil)] =>
        rewrite (bidx_in_shape s (l :: nil)) by (cbn; tauto)
    end;
  cbn [hd tl];
  cbn [fadd fsub fmul fdiv fneg fofZ Scalar_Q];
  unfold lit_quarter, lit_half;
  cbn [fadd fsub fmul fdiv fneg fofZ Scalar_Q]; unfold inject_Z.

(** Unfold the reference basis at the literal indices of the goal down
    to arithmetic on the coordinates of the points. *)
Ltac reference :=
  unfold sum_over, Qsum, value_at, deriv_at, vector_at, scalar_deriv_at;
  cbn [seq map fold_right Z.of_nat Pos.of_succ_nat Pos.succ];
  unfold ElementTriP1_lbasis, ElementTriP0_lbasis, ElementTriRT0_lbasis,
    ElementQ1_lbasis, ElementQ2_lbasis, ElementTetP0_lbasis,
    ElementTetRT0_lbasis, ElementTetN0_lbasis;
  rows; cbn [bind Z.eqb Pos.eqb]; open_lbasis; same_shape; points.

Ltac local_index i n :=
  let H := fresh "Hcases" in
  match n with
  | 3%Z => assert (H : (i = 0 \/ i = 1 \/ i = 2)%Z) by lia;
           destruct H as [->|[->| ->]]
  | 4%Z => assert (H : (i = 0 \/ i = 1 \/ i = 2 \/ i = 3)%Z) by lia;
           destruct H as [->|[->|[->| ->]]]
  | 6%Z => assert (H : (i = 0 \/ i = 1 \/ i = 2 \/ i = 3 \/ i = 4 \/ i = 5)%Z)
             by lia;
           destruct H as [->|[->|[->|[->|[->| ->]]]]]
  | 9%Z => assert (H : (i = 0 \/ i = 1 \/ i = 2 \/ i = 3 \/ i = 4 \/ i = 5
                        \/ i = 6 \/ i = 7 \/ i = 8)%Z) by lia;
           destruct H as [->|[->|[->|[->|[->|[->|[->|[->| ->]]]]]]]]
  end.

(** X9.  [ElementTriP0.lbasis] and [ElementTetP0.lbasis] return, for
    every local index, the value 1 at every point and a derivative of
    the shape of the points that is 0 in every entry. *)
Theorem ElementP0_lbasis_constant (X : farray Q) (r L : nat) (i : Z) :
  shape X = [S r; L] ->
  (exists phi dphi,
     ElementTriP0_lbasis X i = Ok (phi, dphi) /\
     shape phi = [L] /\ shape dphi = shape X /\
     (forall l, get phi [l] == 1) /\ (forall ix, get dphi ix == 0)) /\
  (exists phi dphi,
     ElementTetP0_lbasis X i = Ok (phi, dphi) /\
     shape phi = [L] /\ shape dphi = shape X /\
     (forall l, get phi [l] == 1) /\ (forall ix, get dphi ix == 0)).
Proof.
  intros Hs.
  split; unfold ElementTriP0_lbasis, ElementTetP0_lbasis; rows; cbn [bind];
    (eexists; eexists; split; [reflexivity|]);
    (split; [reflexivity|]); (split; [reflexivity|]);
    split; intros; points; ring.
Qed.

(** X10.  The basis functions of [ElementTriP1] are nodal: function [i]
    is 1 at vertex [i] of the reference triangle and 0 at the other two
    vertices. *)
Theorem ElementTriP1_nodal (X : farray Q) (r L l : nat) (i : Z) (j : nat) :
  shape X = [S (S r); L] -> (l < L)%nat ->
  (0 <= i < 3)%Z -> (j < 3)%nat ->
  is_point X l (node triangle_nodes j) ->
  value_at ElementTriP1_lbasis X i l == delta (Z.to_nat i) j.
Proof.
  intros Hs Hl Hi Hj (Hx & Hy).
  destruct j as [|[|[|j]]]; try lia;
    cbn [node nth triangle_nodes fst snd] in Hx, Hy;
    local_index i 3%Z; reference; rewrite ?Hx, ?Hy; reflexivity.
Qed.


(** X12.  The basis functions of [ElementQ1] are nodal on the vertices
    (-1,-1), (1,-1), (1,1), (-1,1) of the reference square. *)
Theorem ElementQ1_nodal (X : farray Q) (r L l : nat) (i : Z) (j : nat) :
  shape X = [S (S r); L] -> (l < L)%nat ->
  (0 <= i < 4)%Z -> (j < 4)%nat ->
  is_point X l (node square_nodes j) ->
  value_at ElementQ1_lbasis X i l == delta (Z.to_nat i) j.
Proof.
  intros Hs Hl Hi Hj (Hx & Hy).
  destruct j as [|[|[|[|j]]]]; try lia;
    cbn [node nth square_nodes fst snd] in Hx, Hy;
    local_index i 4%Z; reference; rewrite ?Hx, ?Hy; reflexivity.
Qed.

(** Coordinates of a shifted batch, ready for rewriting. *)
Lemma shifted_coordinates (X Xh : farray Q) (c l : nat) (h : Q) :
  shifted X Xh c l h ->
  get Xh [0%nat; l] == get X [0%nat; l] + (if (0 =? c)%nat then h else 0) /\
  get Xh [1%nat; l] == get X [1%nat; l] + (if (1 =? c)%nat then h else 0) /\
  get Xh [2%nat; l] == get X [2%nat; l] + (if (2 =? c)%nat then h else 0).
Proof. intros Hsh. repeat split; apply Hsh. Qed.

Ltac shift Hsh :=
  let H0 := fresh "H0" in
  let H1 := fresh "H1" in
  let H2 := fresh "H2" in
  destruct (shifted_coordinates _ _ _ _ _ Hsh) as (H0 & H1 & H2);
  cbn [Nat.eqb] in H0, H1, H2.



(** X15.  The basis functions of [ElementQ2] are nodal on the four
    vertices, the four edge midpoints and the centre of the reference
    square, in the order of the local indices. *)
Theorem ElementQ2_nodal (X : farray Q) (r L l : nat) (i : Z) (j : nat) :
  shape X = [S (S r); L] -> (l < L)%nat ->
  (0 <= i < 9)%Z -> (j < 9)%nat ->
  is_point X l (node square_nodes j) ->
  value_at ElementQ2_lbasis X i l == delta (Z.to_nat i) j.
Proof.
  intros Hs Hl Hi Hj (Hx & Hy).
  destruct j as [|[|[|[|[|[|[|[|[|j]]]]]]]]]; try lia;
    cbn [node nth square_nodes fst snd] in Hx, Hy;
    local_index i 9%Z; reference; rewrite ?Hx, ?Hy; reflexivity.
Qed.


End ReferenceFacts.

(* ================================================================== *)
(** * Divergence and curl of the reference vector bases *)
(* ================================================================== *)

Section VectorReferenceFacts.

Local Open Scope Q_scope.

Ltac same_shape :=
  repeat first
    [ progress cbn [bind mapM shape ssub sadd smul subs aneg fmuls divs
                    asquare amap array forallb andb List.length is_ok]
    | rewrite broadcast_same
    | rewrite shape_eqb_refl ].

Ltac open_lbasis :=
  unfold pair_of, stack, lift1, lift2, aadd, asub, amul, map2.

Ltac rows :=
  repeat match goal with
    | Hs : shape ?X = _ |- context [getitem ?X [Int ?a; All]] =>
        rewrite (getitem_row_ok X _ _ a Hs) by lia
    end;
  change (Z.to_nat 0) with 0%nat;
  change (Z.to_nat 1) with 1%nat;
  change (Z.to_nat 2) with 2%nat.

Ltac points :=
  cbn [unwrap fst snd get amap nth hd tl fmuls ssub sadd smul subs
       aneg divs asquare];
  repeat match goal with
    | |- context [bidx ?s (?l :: nil)] =>
        rewrite (bidx_in_shape s (l :: nil)) by (cbn; tauto)
    end;
  cbn [hd tl];
  cbn [fadd fsub fmul fdiv fneg fofZ Scalar_Q];
  unfold lit_quarter, lit_half;
  cbn [fadd fsub fmul fdiv fneg fofZ Scalar_Q]; unfold inject_Z.

Ltac reference :=
  unfold value_at, deriv_at, vector_at, scalar_deriv_at;
  unfold ElementTriRT0_lbasis, ElementTetRT0_lbasis, ElementTetN0_lbasis;
  rows; cbn [bind Z.eqb Pos.eqb]; open_lbasis; same_shape; points.

Ltac shift Hsh :=
  let H0 := fresh "H0" in
  let H1 := fresh "H1" in
  let H2 := fresh "H2" in
  destruct (shifted_coordinates _ _ _ _ _ Hsh) as (H0 & H1 & H2);
  cbn [Nat.eqb] in H0, H1, H2.

Ltac coordinates :=
  repeat match goal with
    | E : get _ _ == _ |- _ => rewrite ?E; clear E
    end.

Ltac local_index i n :=
  let H := fresh "Hcases" in
  match n with
  | 3%Z => assert (H : (i = 0 \/ i = 1 \/ i = 2)%Z) by lia;
           destruct H as [->|[->| ->]]
  | 4%Z => assert (H : (i = 0 \/ i = 1 \/ i = 2 \/ i = 3)%Z) by lia;
           destruct H as [->|[->|[->| ->]]]
  | 6%Z => assert (H : (i = 0 \/ i = 1 \/ i = 2 \/ i = 3 \/ i = 4 \/ i = 5)%Z)
             by lia;
           destruct H as [->|[->|[->|[->|[->| ->]]]]]
  end.




End VectorReferenceFacts.

(* ================================================================== *)
(** * The catalog: accepted indices, and the statements at a point *)
(* ================================================================== *)

(** X8.  Each [lbasis] that dispatches on the local index returns for the
    indices 0 .. n-1 and raises for every other one, negative ones
    included: n = 3 for [ElementTriP1] and [ElementTriRT0], 4 for
    [ElementQ1] and [ElementTetRT0], 9 for [ElementQ2], 6 for
    [ElementTetN0]. *)
Theorem catalog_lbasis_range {num : Type} `{Scalar num}
        (X2 X3 : farray num) (r2 L2 r3 L3 : nat) (i : Z) :
  shape X2 = [S (S r2); L2] ->
  shape X3 = [S (S (S r3)); L3] ->
  let accepts (lbasis : lbasis_t num) (X : farray num) (n : Z) :=
    is_ok (lbasis X i) = (0 <=? i) && (i <? n) in
  accepts ElementTriP1_lbasis X2 3 /\
  accepts ElementTriRT0_lbasis X2 3 /\
  accepts ElementQ1_lbasis X2 4 /\
  accepts ElementQ2_lbasis X2 9 /\
  accepts ElementTetRT0_lbasis X3 4 /\
  accepts ElementTetN0_lbasis X3 6.
Proof.
  intros H2 H3 accepts. unfold accepts. repeat split.
  - exact (ElementTriP1_lbasis_range X2 r2 L2 i H2).
  - exact (ElementTriRT0_lbasis_range X2 r2 L2 i H2).
  - exact (ElementQ1_lbasis_range X2 r2 L2 i H2).
  - exact (ElementQ2_lbasis_range X2 r2 L2 i H2).
  - exact (ElementTetRT0_lbasis_range X3 r3 L3 i H3).
  - exact (ElementTetN0_lbasis_range X3 r3 L3 i H3).
Qed.

Section ReferenceWitnesses.

Local Open Scope Q_scope.

Ltac moved :=
  let a := fresh "a" in
  intros a; destruct a as [|[|[|a]]]; try reflexivity;
  destruct a; reflexivity.

Lemma catalog_lbasis_range_witness :
  let accepts (lbasis : lbasis_t Q) (X : farray Q) (n : Z) :=
    is_ok (lbasis X (-1)%Z) = (0 <=? -1)%Z && (-1 <? n)%Z in
  accepts ElementTriP1_lbasis X1 3%Z /\
  accepts ElementTriRT0_lbasis X1 3%Z /\
  accepts ElementQ1_lbasis X1 4%Z /\
  accepts ElementQ2_lbasis X1 9%Z /\
  accepts ElementTetRT0_lbasis X3 4%Z /\
  accepts ElementTetN0_lbasis X3 6%Z.
Proof.
  apply (catalog_lbasis_range (num := Q) X1 X3 0 1 0 1 (-1)%Z);
    reflexivity.
Defined.

Lemma ElementP0_lbasis_constant_witness :
  (exists phi dphi,
     ElementTriP0_lbasis (num := Q) X1 7%Z = Ok (phi, dphi) /\
     shape phi = [1%nat] /\ shape dphi = shape (X1 (num := Q)) /\
     (forall l, get phi [l] == 1) /\ (forall ix, get dphi ix == 0)) /\
  (exists phi dphi,
     ElementTetP0_lbasis (num := Q) X1 7%Z = Ok (phi, dphi) /\
     shape phi = [1%nat] /\ shape dphi = shape (X1 (num := Q)) /\
     (forall l, get phi [l] == 1) /\ (forall ix, get dphi ix == 0)).
Proof.
  apply (ElementP0_lbasis_constant X1 1 1 7%Z). reflexivity.
Defined.

Lemma ElementTriP1_nodal_witness :
  value_at ElementTriP1_lbasis (point2 1 0) 1%Z 0 == delta 1 1.
Proof.
  apply (ElementTriP1_nodal (point2 1 0) 0 1 0 1%Z 1);
    [reflexivity|lia|lia|lia|split; reflexivity].
Defined.


Lemma ElementQ1_nodal_witness :
  value_at ElementQ1_lbasis (point2 1 1) 2%Z 0 == delta 2 2.
Proof.
  apply (ElementQ1_nodal (point2 1 1) 0 1 0 2%Z 2);
    [reflexivity|lia|lia|lia|split; reflexivity].
Defined.



Lemma ElementQ2_nodal_witness :
  value_at ElementQ2_lbasis (point2 1 0) 5%Z 0 == delta 5 5.
Proof.
  apply (ElementQ2_nodal (point2 1 0) 0 1 0 5%Z 5);
    [reflexivity|lia|lia|lia|split; reflexivity].
Defined.





End ReferenceWitnesses.

(* ================================================================== *)
(** * ElementH2: second derivatives, unsupported meshes, power basis *)
(* ================================================================== *)

Section H2More.

Context {num : Type} `{Scalar num} `{ScalarNaN num}.

Variable linalg_inv : farray num -> res (farray num).
Variable linalg_norm0 : farray num -> res (farray num).

Local Abbreviation gbasis_H2 := (ElementH2_gbasis linalg_inv linalg_norm0).

(** A view at three integer positions of a (2, 2, 2, ...) array. *)
Lemma getitem_block (a b : farray num) (s : list nat) (p q r : nat) :
  shape a = 2%nat :: 2%nat :: 2%nat :: s ->
  (p < 2)%nat -> (q < 2)%nat -> (r < 2)%nat ->
  getitem a [Int (Z.of_nat p); Int (Z.of_nat q); Int (Z.of_nat r)] = Ok b ->
  shape b = s /\ forall ix, get b ix = get a (p :: q :: r :: ix).
Proof.
  intros Hs Hp Hq Hr. unfold getitem. rewrite Hs. cbn [norm_items].
  rewrite !norm_index_nat by assumption. cbn [bind].
  intros [= <-]. split; reflexivity.
Qed.

(** The blocks of the derivative the evaluation returns, in terms of the
    sums [u0], [du0] the loop over the power basis has accumulated. *)
Lemma gbasis_eval_blocks (pb : power_basis) (Vm : farray num)
      (F : farray num -> tind_t -> res (farray num))
      (X : farray num) (i : Z) (tind : tind_t) (u du : farray num) :
  gbasis_eval pb Vm F X i tind = Ok (Some (u, du)) ->
  exists du0 : farray num,
    forall p q r ix, in_shape (shape u) ix ->
      get du (p :: q :: r :: ix)
      = if ((p =? 0) && (q =? 1) && ((r =? 0) || (r =? 1)))%nat
        then fadd (get u ix) fnan
        else if ((p =? 1) && (q =? 1) && (r =? 0))%nat
             then get du0 (1 :: 0 :: 1 :: ix)%nat
             else get du0 (p :: q :: r :: ix).
Proof.
  unfold gbasis_eval. intros Hev.
  apply bind_ok in Hev. destruct Hev as (x & Hx & Hev).
  apply bind_ok in Hev. destruct Hev as (x0 & Hx0 & Hev).
  rewrite Hx0 in Hev. cbn [bind] in Hev.
  apply bind_ok in Hev. destruct Hev as ([u1 du0] & Hloop & Hev).
  assert (Hinv : shape u1 = shape x0 /\
                 shape du0 = [2; 2; 2]%nat ++ shape x0).
  { revert Hloop.
    apply (foldM_invariant
             (fun p : farray num * farray num =>
                shape (fst p) = shape x0 /\
                shape (snd p) = [2; 2; 2]%nat ++ shape x0));
      [|split; reflexivity].
    intros [a1 b1] itr [a2 b2] (Ha1 & Hb1) Hstep. cbn [fst snd] in *.
    apply bind_ok in Hstep. destruct Hstep as (u' & Hu' & Hstep).
    apply accumulate_shape in Hu'.
    do 5 (apply bind_ok in Hstep;
          let d := fresh "d" in let Hd := fresh "Hd" in
          destruct Hstep as (d & Hd & Hstep);
          apply accumulate_shape in Hd).
    injection Hstep as <- <-. split; congruence. }
  destruct Hinv as (Su & Sdu). cbn [app] in Sdu.
  apply bind_ok in Hev. destruct Hev as (dxy & Hdxy & Hev).
  apply bind_ok in Hev. destruct Hev as (du1 & Hdu1 & Hev).
  apply bind_ok in Hev. destruct Hev as (du2 & Hdu2 & Hev).
  apply bind_ok in Hev. destruct Hev as (du3 & Hdu3 & Hev).
  injection Hev as <- <-.
  apply (getitem_block du0 dxy (shape x0) 1 0 1) in Hdxy;
    [|assumption|lia..].
  destruct Hdxy as (Sdxy & Gdxy).
  apply (setitem_block du0 dxy du1 (shape x0) 1 1 0) in Hdu1;
    [|assumption|lia..].
  destruct Hdu1 as (Sdu1 & Gdu1).
  apply (setitem_block du1 _ du2 (shape x0) 0 1 0) in Hdu2;
    [|congruence|lia..].
  destruct Hdu2 as (Sdu2 & Gdu2).
  apply (setitem_block du2 _ du3 (shape x0) 0 1 1) in Hdu3;
    [|congruence|lia..].
  destruct Hdu3 as (Sdu3 & Gdu3).
  exists du0. intros p q r ix Hin.
  rewrite Gdu3, Gdu2, Gdu1. cbn [shape amap get].
  rewrite Sdxy, Gdxy, !bidx_in_shape by congruence.
  destruct p as [|[|p]], q as [|[|q]], r as [|[|r]]; reflexivity.
Qed.

(** X20.  In what [ElementH2.gbasis] returns, the block [du[1, 1, 0]]
    equals the block [du[1, 0, 1]]: the mixed second derivative is
    stored twice. *)
Theorem ElementH2_gbasis_mixed_derivative (self self' : ElementH2)
        (mapping : Mapping num) (X : farray num) (i : Z) (tind : tind_t)
        (u du : farray num) :
  gbasis_H2 self mapping X i tind = (self', Ok (Some (u, du))) ->
  forall ix, in_shape (shape u) ix ->
    get du (1 :: 1 :: 0 :: ix)%nat = get du (1 :: 0 :: 1 :: ix)%nat.
Proof.
  intros Hcall.
  assert (Hev : exists pb Vm,
             gbasis_eval pb Vm (mapping_F mapping) X i tind
             = Ok (Some (u, du))).
  { unfold ElementH2_gbasis in Hcall.
    destruct (V self) as [Vm|].
    - injection Hcall as _ Hr. now exists (_pbasis_init (h2_maxdeg self)), Vm.
    - destruct (Py.bind _ _) as [Vm|e] in Hcall.
      + injection Hcall as _ Hr.
        now exists (_pbasis_init (h2_maxdeg self)), Vm.
      + discriminate Hcall. }
  destruct Hev as (pb & Vm & Hev).
  apply gbasis_eval_blocks in Hev. destruct Hev as (du0 & Hblocks).
  intros ix Hin. now rewrite !Hblocks by assumption.
Qed.

(** X21.  On a fresh instance, a mesh whose elements do not have three
    vertices makes [ElementH2.gbasis] raise NotImplementedError before
    anything is cached; the instance is left as it was, so the next call
    behaves as a first call. *)
Theorem ElementH2_gbasis_unsupported_mesh (self : ElementH2)
        (mapping : Mapping num) (X : farray num) (i : Z) (tind : tind_t)
        (nv nt : nat) :
  V self = None ->
  shape (mesh_t (mapping_mesh mapping)) = [nv; nt] ->
  nv <> 3%nat ->
  match tind with Some ti => shape ti <> [] | None => True end ->
  gbasis_H2 self mapping X i tind
  = (self, Raise (NotImplementedError
                    "The used mesh type not supported in ElementH2.")) /\
  forall (c : call_t),
    run_gbasis linalg_inv linalg_norm0 self [(mapping, X, i, tind); c]
    = (fst (run_gbasis linalg_inv linalg_norm0 self [c]),
       Raise (NotImplementedError
                "The used mesh type not supported in ElementH2.")
       :: snd (run_gbasis linalg_inv linalg_norm0 self [c])).
Proof.
  intros HV Ht Hnv Htind.
  assert (Hcall : gbasis_H2 self mapping X i tind
                  = (self, Raise (NotImplementedError
                       "The used mesh type not supported in ElementH2."))).
  { unfold ElementH2_gbasis. rewrite HV. unfold _eval_dofs, shape_at.
    rewrite Ht. cbn [nth_error bind].
    assert (Hlen : exists K ti',
               match tind with
               | Some ti => Ok ti
               | None => Ok (arange nt)
               end = Ok ti' /\ len ti' = Ok K).
    { destruct tind as [ti|].
      - destruct (shape ti) as [|K s] eqn:Hs; [contradiction|].
        exists K, ti. split; [reflexivity|]. unfold len. now rewrite Hs.
      - exists nt, (arange nt). split; reflexivity. }
    destruct Hlen as (K & ti' & -> & Hlen). cbn [bind]. rewrite Hlen.
    cbn [bind]. destruct (Nat.eqb_spec nv 3) as [|_]; [contradiction|].
    reflexivity. }
  split; [exact Hcall|].
  intros [[[m2 X2] i2] tind2]. cbn [run_gbasis]. rewrite Hcall.
  destruct (gbasis_H2 self m2 X2 i2 tind2) as [s2 r2]. reflexivity.
Qed.

End H2More.

Section PowerBasis.

Context {num : Type} `{Scalar num} `{ScalarNaN num}.

Lemma flat_map_seq_S {A} (f : nat -> list A) (m : nat) :
  flat_map f (seq 0 (S m)) = flat_map f (seq 0 m) ++ f m.
Proof.
  rewrite seq_S, flat_map_app. cbn [flat_map Nat.add]. now rewrite app_nil_r.
Qed.

(** The exponents [j] of [range(m)] with [i + j <= n]. *)
Lemma monomials_row (n i m : nat) :
  (i <= n)%nat ->
  List.length
    (flat_map (fun j => if Z.of_nat i + Z.of_nat j <=? Z.of_nat n
                        then [{| coef := 1; ex := i; ey := j |}]
                        else [])
              (seq 0 m))
  = Nat.min m (n + 1 - i).
Proof.
  intros Hi. induction m as [|m IH]; [reflexivity|].
  rewrite flat_map_seq_S, length_app, IH.
  destruct (Z.leb_spec (Z.of_nat i + Z.of_nat m) (Z.of_nat n));
    cbn [List.length]; lia.
Qed.

Lemma monomials_rows (n m : nat) :
  (m <= n + 1)%nat ->
  (2 * List.length
         (flat_map
            (fun i =>
               flat_map (fun j => if (Z.of_nat i + Z.of_nat j <=? Z.of_nat n)%Z
                                  then [{| coef := 1%Z; ex := i; ey := j |}]
                                  else [])
                        (seq 0 (n + 1)))
            (seq 0 m))
   = m * (2 * n + 3 - m))%nat.
Proof.
  induction m as [|m IH]; intros Hm; [reflexivity|].
  rewrite flat_map_seq_S, length_app, monomials_row by lia.
  specialize (IH ltac:(lia)). nia.
Qed.

(** X22.  The power basis of degree [N >= 0] has (N+1)(N+2)/2 functions,
    the dimension of the polynomials of degree at most [N] in two
    variables, and each of the five lists of derivatives has as many;
    for a negative degree, the default [maxdeg = -1] of the base class
    included, all six lists are empty. *)
Theorem pbasis_init_size (N : Z) :
  let pb := _pbasis_init (num := num) N in
  let size := List.length (_pbasis pb) in
  (0 <= N -> 2 * Z.of_nat size = (N + 1) * (N + 2)) /\
  (N < 0 -> size = 0%nat) /\
  List.length (_pbasisdx pb) = size /\
  List.length (_pbasisdy pb) = size /\
  List.length (_pbasisdxx pb) = size /\
  List.length (_pbasisdyy pb) = size /\
  List.length (_pbasisdxy pb) = size.
Proof.
  intros pb size. unfold size, pb, _pbasis_init.
  cbn [_pbasis _pbasisdx _pbasisdy _pbasisdxx _pbasisdyy _pbasisdxy].
  rewrite !length_map. repeat split.
  - intros HN.
    assert (HNn : N = Z.of_nat (Z.to_nat N)) by lia.
    remember (Z.to_nat N) as n eqn:Hn. clear Hn. subst N.
    unfold monomials, range.
    replace (Z.to_nat (Z.of_nat n + 1)) with (n + 1)%nat by lia.
    pose proof (monomials_rows n (n + 1) ltac:(lia)) as Hrows.
    apply (f_equal Z.of_nat) in Hrows. rewrite !Nat2Z.inj_mul in Hrows.
    cbn [Z.of_nat Pos.of_succ_nat Pos.succ] in Hrows. rewrite Hrows. lia.
  - intros HN. unfold monomials, range.
    replace (Z.to_nat (N + 1)) with 0%nat by lia. reflexivity.
Qed.

End PowerBasis.

(* ================================================================== *)
(** * Errors of the H1 and vector-H1 transforms *)
(* ================================================================== *)

Section TransformErrors.

Context {num : Type} `{Scalar num}.


(** X24.  [ElementH1.gbasis] passes on an exception of [lbasis] before
    it asks the mapping for anything, and when the array of points has
    neither two nor three axes it returns None instead of a pair, with
    no exception. *)
Theorem ElementH1_gbasis_edge_cases (lbasis : lbasis_t num)
        (mapping : Mapping num) (X : farray num) (i : Z) (tind : tind_t) :
  (forall e, lbasis X i = Raise e ->
   ElementH1_gbasis lbasis mapping X i tind = Raise e) /\
  (forall p invDF,
     lbasis X i = Ok p ->
     mapping_invDF mapping X tind = Ok invDF ->
     ndim X <> 2%nat -> ndim X <> 3%nat ->
     ElementH1_gbasis lbasis mapping X i tind = Ok None).
Proof.
  split.
  - intros e He. unfold ElementH1_gbasis. now rewrite He.
  - intros [phi dphi] invDF Hl Hinv H2 H3.
    unfold ElementH1_gbasis. rewrite Hl; cbn [bind]. rewrite Hinv; cbn [bind].
    destruct (Nat.eqb_spec (ndim X) 2); [contradiction|].
    destruct (Nat.eqb_spec (ndim X) 3); [contradiction|]. reflexivity.
Qed.

End TransformErrors.

(* ================================================================== *)
(** * InteriorBasis: the stored basis and the errors of construction *)
(* ================================================================== *)

Section BasisFacts.

Context {num : Type} `{Scalar num}.

Variable get_quadrature : string -> Z -> res (farray num * farray num).

Lemma eval_gbasis_stateless (elem : Element) (mapping : Mapping num)
      (X : farray num) (js : list nat) :
  eval_gbasis (stateless elem) tt mapping X js
  = (tt, mapM (fun j => gbasis elem mapping X (Z.of_nat j) None) js).
Proof.
  induction js as [|j js IH]; [reflexivity|].
  cbn [eval_gbasis mapM]. unfold stateless at 1.
  destruct (gbasis elem mapping X (Z.of_nat j) None) as [b|e];
    [|reflexivity].
  rewrite IH. cbn [bind].
  destruct (mapM _ js); reflexivity.
Qed.

Lemma mapM_pairs {A} (k : A -> res (basis_t num)) (l : list A) (dx : A)
      (dp : farray num * farray num) :
  (forall x, In x l -> exists p, k x = Ok (Some p)) ->
  exists pairs,
    mapM k l = Ok (map Some pairs) /\
    List.length pairs = List.length l /\
    forall n, (n < List.length l)%nat ->
      k (nth n l dx) = Ok (Some (nth n pairs dp)).
Proof.
  induction l as [|x l IH]; intros Hall.
  - exists []. split; [reflexivity|]. split; [reflexivity|].
    cbn. intros n Hn. lia.
  - destruct (Hall x (or_introl eq_refl)) as (p & Hp).
    destruct IH as (pairs & Hm & Hlen & Hnth);
      [intros y Hy; apply Hall; now right|].
    exists (p :: pairs). cbn [mapM map List.length]. rewrite Hp, Hm.
    split; [reflexivity|]. split; [now rewrite Hlen|].
    intros [|n] Hn; cbn [nth]; [assumption|]. apply Hnth. cbn in Hn. lia.
Qed.

Lemma mapM_unpack_pairs (pairs : list (farray num * farray num)) :
  mapM unpack (map Some pairs) = Ok pairs.
Proof.
  induction pairs as [|p pairs IH]; [reflexivity|].
  cbn [map mapM unpack bind]. now rewrite IH.
Qed.

Lemma mapM_raise {A B} (k : A -> res B) (l1 l2 : list A) (x : A) (e : exn) :
  (forall y, In y l1 -> is_ok (k y) = true) ->
  k x = Raise e ->
  mapM k (l1 ++ x :: l2) = Raise e.
Proof.
  induction l1 as [|y l1 IH]; intros Hok Hx; cbn [app mapM].
  - now rewrite Hx.
  - pose proof (Hok y (or_introl eq_refl)) as Hy.
    destruct (k y) as [b|e']; [|discriminate]. cbn [bind].
    rewrite IH; [reflexivity| |assumption].
    intros z Hz. apply Hok. now right.
Qed.

Lemma mapM_in {A B} (k : A -> res B) (l : list A) (bs : list B) (x : A) :
  mapM k l = Ok bs -> In x l -> exists b, k x = Ok b /\ In b bs.
Proof.
  revert bs. induction l as [|y l IH]; intros bs Hm Hin; [contradiction|].
  cbn [mapM] in Hm. apply bind_ok in Hm. destruct Hm as (b & Hb & Hm).
  apply bind_ok in Hm. destruct Hm as (bs' & Hbs & Hm).
  injection Hm as <-. destruct Hin as [<-|Hin].
  - exists b. split; [assumption|now left].
  - destruct (IH bs' Hbs Hin) as (b' & Hb' & Hin').
    exists b'. split; [assumption|now right].
Qed.

Lemma mapM_unpack_none (l : list (basis_t num)) :
  In None l -> mapM unpack l = Raise TypeError.
Proof.
  induction l as [|[p|] l IH]; intros Hin; [contradiction| |reflexivity].
  destruct Hin as [Hin|Hin]; [discriminate|].
  cbn [mapM unpack bind]. now rewrite IH.
Qed.

(** X25.  For an element without state whose [gbasis] returns a pair at
    every local index, [InteriorBasis.__init__] keeps the points and
    weights of the quadrature rule and stores the basis as two
    sequences, the values and the derivatives, of [Nbfun] arrays each,
    entry [j] of each being what [gbasis] returned at index [j]; with no
    basis function the stored basis is empty. *)
Theorem InteriorBasis_basis_layout (elem : Element)
        (self : GlobalBasis unit) (X W detDF : farray num) (Nqp : nat) :
  get_quadrature (gb_refdom self) (gb_intorder self) = Ok (X, W) ->
  (forall j, (j < gb_Nbfun self)%nat ->
     exists p, gbasis elem (gb_mapping self) X (Z.of_nat j) None
               = Ok (Some p)) ->
  mapping_detDF (gb_mapping self) X None = Ok detDF ->
  shape W = [Nqp] -> shape detDF = [gb_nt self; Nqp] ->
  exists ib,
    InteriorBasis_init (stateless elem) get_quadrature self = (tt, Ok ib) /\
    ib_X ib = X /\ ib_W ib = W /\
    (gb_Nbfun self = 0%nat -> ib_basis ib = []) /\
    ((0 < gb_Nbfun self)%nat ->
     exists values derivs,
       ib_basis ib = [values; derivs] /\
       List.length values = gb_Nbfun self /\
       List.length derivs = gb_Nbfun self /\
       forall j, (j < gb_Nbfun self)%nat ->
         gbasis elem (gb_mapping self) X (Z.of_nat j) None
         = Ok (Some (nth j values (zeros []), nth j derivs (zeros [])))).
Proof.
  intros Hq Hall Hdet SW Sdet.
  destruct (mapM_pairs
              (fun j => gbasis elem (gb_mapping self) X (Z.of_nat j) None)
              (range (gb_Nbfun self)) 0%nat (zeros [], zeros []))
    as (pairs & Hm & Hlen & Hnth).
  { intros j Hj. apply in_seq in Hj. apply Hall. lia. }
  unfold range in Hlen. rewrite length_seq in Hlen.
  destruct (tile_rows_vector W (gb_nt self) Nqp SW) as (St & _).
  assert (Hdx : exists dx,
             amul (aabs detDF) (tile_rows W (gb_nt self)) = Ok dx).
  { unfold amul, map2. cbn [shape aabs amap].
    rewrite Sdet, St, broadcast_same2. eexists. reflexivity. }
  destruct Hdx as (dx & Hdx).
  unfold InteriorBasis_init. rewrite Hq.
  destruct (gb_elem self). rewrite eval_gbasis_stateless, Hm.
  unfold zip_star. rewrite mapM_unpack_pairs. cbn [bind].
  assert (Hvalues : forall j, (j < gb_Nbfun self)%nat ->
            gbasis elem (gb_mapping self) X (Z.of_nat j) None
            = Ok (Some (nth j (map fst pairs) (zeros []),
                        nth j (map snd pairs) (zeros [])))).
  { intros j Hj.
    pose proof (map_nth fst pairs (zeros (num := num) [], zeros (num := num) []) j)
      as Hf.
    pose proof (map_nth snd pairs (zeros (num := num) [], zeros (num := num) []) j)
      as Hs.
    cbn [fst snd] in Hf, Hs. rewrite Hf, Hs, <- surjective_pairing.
    specialize (Hnth j). unfold range in Hnth.
    rewrite length_seq, seq_nth in Hnth by assumption.
    now apply Hnth. }
  destruct pairs as [|p pairs];
    cbn [bind]; rewrite Hdet; cbn [bind]; rewrite Hdx; cbn [bind];
    eexists; (split; [reflexivity|]); cbn [ib_X ib_W ib_basis];
    (split; [reflexivity|]); (split; [reflexivity|]); split.
  - reflexivity.
  - intros Hpos. cbn in Hlen. lia.
  - intros Hz. cbn in Hlen. lia.
  - intros _. exists (map fst (p :: pairs)), (map snd (p :: pairs)).
    split; [reflexivity|]. rewrite !length_map.
    split; [assumption|]. split; [assumption|]. exact Hvalues.
Qed.

(** X26.  [InteriorBasis.__init__] raises what the quadrature lookup
    raises; with points at hand it raises the exception of the first
    local index at which [gbasis] raises, and TypeError when every call
    returns but one of them returns None. *)
Theorem InteriorBasis_init_errors (elem : Element)
        (self : GlobalBasis unit) :
  (forall e,
     get_quadrature (gb_refdom self) (gb_intorder self) = Raise e ->
     InteriorBasis_init (stateless elem) get_quadrature self
     = (gb_elem self, Raise e)) /\
  (forall X W,
     get_quadrature (gb_refdom self) (gb_intorder self) = Ok (X, W) ->
     let call j := gbasis elem (gb_mapping self) X (Z.of_nat j) None in
     (forall j e, (j < gb_Nbfun self)%nat ->
        (forall j', (j' < j)%nat -> is_ok (call j') = true) ->
        call j = Raise e ->
        InteriorBasis_init (stateless elem) get_quadrature self
        = (tt, Raise e)) /\
     (forall j, (j < gb_Nbfun self)%nat ->
        (forall j', (j' < gb_Nbfun self)%nat -> is_ok (call j') = true) ->
        call j = Ok None ->
        InteriorBasis_init (stateless elem) get_quadrature self
        = (tt, Raise TypeError))).
Proof.
  split.
  - intros e Hq. unfold InteriorBasis_init. now rewrite Hq.
  - intros X W Hq call. split.
    + intros j e Hj Hbefore Hcall.
      unfold InteriorBasis_init. rewrite Hq.
      destruct (gb_elem self). rewrite eval_gbasis_stateless.
      unfold range.
      replace (gb_Nbfun self) with (j + S (gb_Nbfun self - S j))%nat by lia.
      rewrite seq_app. cbn [seq Nat.add].
      rewrite (mapM_raise _ (seq 0 j) _ j e); [reflexivity| |exact Hcall].
      intros y Hy. apply in_seq in Hy. apply Hbefore. lia.
    + intros j Hj Hall Hnone.
      unfold InteriorBasis_init. rewrite Hq.
      destruct (gb_elem self). rewrite eval_gbasis_stateless.
      destruct (mapM (fun j0 => gbasis elem (gb_mapping self) X
                                       (Z.of_nat j0) None)
                     (range (gb_Nbfun self))) as [l|e] eqn:Hm.
      * destruct (mapM_in _ _ _ j Hm) as (b & Hb & Hin);
          [apply in_seq; lia|].
        fold (call j) in Hb. rewrite Hnone in Hb. injection Hb as <-.
        unfold zip_star. now rewrite (mapM_unpack_none l Hin).
      * exfalso.
        assert (Hok : forall l0, (forall y, In y l0 -> (y < gb_Nbfun self)%nat) ->
                  is_ok (mapM (fun j0 => gbasis elem (gb_mapping self) X
                                                (Z.of_nat j0) None) l0)
                  = true).
        { induction l0 as [|y l0 IH]; intros Hl0; [reflexivity|].
          cbn [mapM]. pose proof (Hall y (Hl0 y (or_introl eq_refl))) as Hy.
          unfold call in Hy.
          destruct (gbasis elem (gb_mapping self) X (Z.of_nat y) None);
            [|discriminate].
          cbn [bind]. specialize (IH (fun z Hz => Hl0 z (or_intror Hz))).
          destruct (mapM _ l0); [reflexivity|discriminate]. }
        specialize (Hok (range (gb_Nbfun self))).
        rewrite Hm in Hok. discriminate Hok.
        intros y Hy. apply in_seq in Hy. lia.
Qed.

End BasisFacts.

(* ================================================================== *)
(** * The edge cases on the examples *)
(* ================================================================== *)

Lemma call_pair_returned {num : Type} `{Scalar num} {S : Type}
      (c : S * res (basis_t num)) :
  match snd c with Ok (Some _) => true | _ => false end = true ->
  c = (fst c, Ok (Some (fst (returned (snd c)), snd (returned (snd c))))).
Proof.
  destruct c as [s [[[u du]|]|e]]; [reflexivity|discriminate..].
Qed.

Section EdgeWitnesses.

Import Float64Linalg.

Local Abbreviation first_call :=
  (ElementH2_gbasis inv1 norm0 ElementConstant square_mapping X1 0 None).

(** The one-function element on the unit square, at element 1 and its
    only point. *)
Lemma ElementH2_gbasis_mixed_derivative_witness :
  in_shape (shape (fst (returned (snd first_call)))) [1; 0]%nat /\
  get (snd (returned (snd first_call))) [1; 1; 0; 1; 0]%nat
  = get (snd (returned (snd first_call))) [1; 0; 1; 1; 0]%nat.
Proof.
  assert (Hin : in_shape (shape (fst (returned (snd first_call)))) [1; 0]%nat)
    by (vm_compute; repeat split; lia).
  split; [exact Hin|].
  apply (ElementH2_gbasis_mixed_derivative inv1 norm0 ElementConstant
           (fst first_call) square_mapping X1 0 None
           (fst (returned (snd first_call)))
           (snd (returned (snd first_call))));
    [apply call_pair_returned; vm_compute; reflexivity|exact Hin].
Defined.

(** The Morley element on the mesh of tetrahedra. *)
Lemma ElementH2_gbasis_unsupported_mesh_witness :
  ElementH2_gbasis inv1 norm0 ElementMorley tet_mapping X3 0 None
  = (ElementMorley,
     Raise (NotImplementedError
              "The used mesh type not supported in ElementH2.")) /\
  forall (c : call_t),
    run_gbasis inv1 norm0 ElementMorley [(tet_mapping, X3, 0, None); c]
    = (fst (run_gbasis inv1 norm0 ElementMorley [c]),
       Raise (NotImplementedError
                "The used mesh type not supported in ElementH2.")
       :: snd (run_gbasis inv1 norm0 ElementMorley [c])).
Proof.
  apply (ElementH2_gbasis_unsupported_mesh inv1 norm0 ElementMorley
           tet_mapping X3 0 None 4 2);
    [reflexivity|reflexivity|lia|exact I].
Defined.

(** Degree 2, the Morley element: six functions. *)
Lemma pbasis_init_size_witness :
  let pb := _pbasis_init (num := Float64.t) 2 in
  2 * Z.of_nat (List.length (_pbasis pb)) = (2 + 1) * (2 + 2) /\
  List.length (_pbasisdxy pb) = List.length (_pbasis pb) /\
  List.length (_pbasis (_pbasis_init (num := Float64.t) (-1))) = 0%nat.
Proof.
  pose proof (pbasis_init_size (num := Float64.t) 2) as H2.
  pose proof (pbasis_init_size (num := Float64.t) (-1)) as Hneg.
  cbv zeta in H2, Hneg.
  destruct H2 as (Hsize & _ & _ & _ & _ & _ & Hxy).
  destruct Hneg as (_ & Hempty & _).
  split; [apply Hsize; lia|]. split; [exact Hxy|]. apply Hempty. lia.
Defined.

End EdgeWitnesses.

Section EdgeWitnessesQ.

Local Abbreviation P1 := (ElementTriP1 (num := Q)).
Local Abbreviation P0 := (ElementTriP0 (num := Q)).


Lemma ElementH1_gbasis_edge_cases_witness :
  ElementH1_gbasis (num := Q) ElementTriP1_lbasis square_mapping X1 5 None
  = Raise (Exception "!") /\
  ElementH1_gbasis (num := Q) ElementTriP0_lbasis square_mapping X4 0 None
  = Ok None.
Proof.
  split.
  - apply (ElementH1_gbasis_edge_cases ElementTriP1_lbasis square_mapping
             X1 5 None). reflexivity.
  - apply (proj2 (ElementH1_gbasis_edge_cases ElementTriP0_lbasis
                    square_mapping X4 0 None)
             (unwrap (zeros [], zeros []) (ElementTriP0_lbasis X4 0))
             (unwrap (zeros []) (mapping_invDF square_mapping X4 None)));
      [reflexivity|reflexivity|cbn; lia|cbn; lia].
Defined.

Lemma InteriorBasis_basis_layout_witness :
  exists ib,
    InteriorBasis_init (stateless P1) quadrature1 (square_basis 3)
    = (tt, Ok ib) /\
    ib_X ib = X1 /\ ib_W ib = W1 /\
    (3%nat = 0%nat -> ib_basis ib = []) /\
    ((0 < 3)%nat ->
     exists values derivs,
       ib_basis ib = [values; derivs] /\
       List.length values = 3%nat /\
       List.length derivs = 3%nat /\
       forall j, (j < 3)%nat ->
         gbasis P1 square_mapping X1 (Z.of_nat j) None
         = Ok (Some (nth j values (zeros []), nth j derivs (zeros [])))).
Proof.
  apply (InteriorBasis_basis_layout quadrature1 P1 (square_basis 3) X1 W1
           (unwrap (zeros []) (mapping_detDF square_mapping X1 None)) 1);
    try reflexivity.
  intros [|[|[|j]]] Hj;
    [eexists; reflexivity|eexists; reflexivity|eexists; reflexivity|];
    cbn in Hj; lia.
Defined.

Lemma InteriorBasis_init_errors_witness :
  InteriorBasis_init (stateless P1) quadrature_unknown (square_basis 3)
  = (tt, Raise (NotImplementedError "The domain not yet supported.")) /\
  InteriorBasis_init (stateless P1) quadrature1 (square_basis 5)
  = (tt, Raise (Exception "!")) /\
  InteriorBasis_init (stateless P0) quadrature4 (square_basis 1)
  = (tt, Raise TypeError).
Proof.
  split; [|split].
  - apply (proj1 (InteriorBasis_init_errors quadrature_unknown P1
                    (square_basis 3))). reflexivity.
  - apply (proj1 (proj2 (InteriorBasis_init_errors quadrature1 P1
                           (square_basis 5)) X1 W1 eq_refl) 3%nat);
      [cbn; lia| |reflexivity].
    intros [|[|[|j]]] Hj; [reflexivity|reflexivity|reflexivity|lia].
  - apply (proj2 (proj2 (InteriorBasis_init_errors quadrature4 P0
                           (square_basis 1)) X4 W1 eq_refl) 0%nat);
      [cbn; lia| |reflexivity].
    intros [|j] Hj; [reflexivity|cbn in Hj; lia].
Defined.

End EdgeWitnessesQ.

(* ================================================================== *)
(** * ElementH2: the local index *)
(* ================================================================== *)

Section H2Index.

Context {num : Type} `{Scalar num} `{ScalarNaN num}.

Lemma foldM_ext {A B} (k1 k2 : B -> A -> res B) (l : list A) (b : B) :
  (forall x a, k1 x a = k2 x a) -> foldM k1 l b = foldM k2 l b.
Proof.
  intros Hk. revert b. induction l as [|a l IH]; intros b; [reflexivity|].
  cbn [foldM]. rewrite Hk. destruct (k2 b a); [apply IH|reflexivity].
Qed.

(** A column [V[:, itr, i]] read with a negative [i]. *)
Lemma getitem_column_negative (Vm : farray num) (K N : nat) (itr i : Z) :
  shape Vm = [K; N; N] ->
  - Z.of_nat N <= i < 0 ->
  getitem Vm [All; Int itr; Int i]
  = getitem Vm [All; Int itr; Int (i + Z.of_nat N)].
Proof.
  intros Hs Hi. unfold getitem. rewrite Hs. cbn [norm_items].
  rewrite (norm_index_negative N i) by assumption.
  rewrite (norm_index_nonneg N (i + Z.of_nat N)) by lia.
  now replace (i + Z.of_nat N) with (Z.of_nat N + i) by lia.
Qed.

Lemma getitem_column_outside (Vm : farray num) (K N : nat) (itr : nat)
      (i : Z) :
  shape Vm = [K; N; N] ->
  (itr < N)%nat ->
  i < - Z.of_nat N \/ Z.of_nat N <= i ->
  getitem Vm [All; Int (Z.of_nat itr); Int i] = Raise IndexError.
Proof.
  intros Hs Hitr Hi. unfold getitem. rewrite Hs. cbn [norm_items].
  rewrite norm_index_nat by assumption. cbn [bind].
  now rewrite norm_index_outside.
Qed.

Lemma gbasis_eval_index (pb : power_basis) (Vm : farray num)
        (F : farray num -> tind_t -> res (farray num))
        (X : farray num) (i : Z) (tind : tind_t) (K N : nat) :
  shape Vm = [K; N; N] ->
  (- Z.of_nat N <= i < 0 ->
   gbasis_eval pb Vm F X i tind
   = gbasis_eval pb Vm F X (i + Z.of_nat N) tind) /\
  (i < - Z.of_nat N \/ Z.of_nat N <= i ->
   List.length (_pbasis pb) = N -> (0 < N)%nat ->
   forall x n s, F X tind = Ok x -> shape x = S n :: s ->
   gbasis_eval pb Vm F X i tind = Raise IndexError).
Proof.
  intros Hs. split.
  - intros Hi. unfold gbasis_eval.
    destruct (F X tind) as [x|e]; [|reflexivity]. cbn [bind].
    destruct (getitem x [Int 0]) as [x0|e]; [|reflexivity]. cbn [bind].
    rewrite (foldM_ext _
               (fun '(u, du) itr =>
                  u <- accumulate Vm itr (i + Z.of_nat N)
                         (pget (_pbasis pb) itr) x u [] ;;
                  du <- accumulate Vm itr (i + Z.of_nat N)
                          (pget (_pbasisdx pb) itr) x du
                          [Int 0; Int 0; Int 0] ;;
                  du <- accumulate Vm itr (i + Z.of_nat N)
                          (pget (_pbasisdy pb) itr) x du
                          [Int 0; Int 0; Int 1] ;;
                  du <- accumulate Vm itr (i + Z.of_nat N)
                          (pget (_pbasisdxx pb) itr) x du
                          [Int 1; Int 0; Int 0] ;;
                  du <- accumulate Vm itr (i + Z.of_nat N)
                          (pget (_pbasisdxy pb) itr) x du
                          [Int 1; Int 0; Int 1] ;;
                  du <- accumulate Vm itr (i + Z.of_nat N)
                          (pget (_pbasisdyy pb) itr) x du
                          [Int 1; Int 1; Int 1] ;;
                  Ok (u, du))); [reflexivity|].
    intros [u du] itr. unfold accumulate.
    now rewrite (getitem_column_negative Vm K N (Z.of_nat itr) i Hs Hi).
  - intros Hi Hlen Hpos x n s Hx Sx. unfold gbasis_eval.
    rewrite Hx. cbn [bind].
    assert (Hx0 : exists x0, getitem x [Int 0] = Ok x0).
    { unfold getitem. rewrite Sx. cbn [norm_items norm_index].
      rewrite norm_index_nonneg by lia. eexists. reflexivity. }
    destruct Hx0 as (x0 & ->). cbn [bind].
    rewrite Hlen. destruct N as [|N']; [lia|].
    unfold range. cbn [seq foldM]. unfold accumulate at 1.
    rewrite (getitem_column_outside Vm K (S N') 0 i Hs) by (lia || assumption).
    reflexivity.
Qed.

Variable linalg_inv : farray num -> res (farray num).
Variable linalg_norm0 : farray num -> res (farray num).

(** X27.  With the cache [V] holding N x N matrices,
    [ElementH2.gbasis] does not check the local index itself: an index
    in [-N, 0) gives the basis function [N + i], and, when there is a
    power basis and the mapped points can be read, an index outside
    [-N, N) raises IndexError. *)
Theorem ElementH2_gbasis_index (self : ElementH2) (Vm : farray num)
        (mapping : Mapping num) (X : farray num) (i : Z) (tind : tind_t)
        (K N : nat) :
  V self = Some Vm ->
  shape Vm = [K; N; N] ->
  (- Z.of_nat N <= i < 0 ->
   ElementH2_gbasis linalg_inv linalg_norm0 self mapping X i tind
   = ElementH2_gbasis linalg_inv linalg_norm0 self mapping X
                      (i + Z.of_nat N) tind) /\
  (i < - Z.of_nat N \/ Z.of_nat N <= i ->
   List.length (_pbasis (_pbasis_init (h2_maxdeg self))) = N -> (0 < N)%nat ->
   forall x n s, mapping_F mapping X tind = Ok x -> shape x = S n :: s ->
   ElementH2_gbasis linalg_inv linalg_norm0 self mapping X i tind
   = (self, Raise IndexError)).
Proof.
  intros HV Hs.
  destruct (gbasis_eval_index (_pbasis_init (h2_maxdeg self)) Vm
              (mapping_F mapping) X i tind K N Hs) as (Hneg & Hout).
  rewrite !(ElementH2_gbasis_cached linalg_inv linalg_norm0 self Vm)
    by exact HV.
  split.
  - intros Hi. now rewrite Hneg.
  - intros Hi Hlen Hpos x n s Hx Sx.
    now rewrite (Hout Hi Hlen Hpos x n s Hx Sx).
Qed.

End H2Index.

Lemma some_the {A} (d : A) (o : option A) :
  is_some o = true -> o = Some (the d o).
Proof. destruct o; [reflexivity|discriminate]. Qed.

Section H2IndexWitness.

Import Float64Linalg.

Local Abbreviation cached :=
  (fst (ElementH2_gbasis inv1 norm0 ElementConstant square_mapping X1 0 None)).

(** The one-function element after its first call: index -1 is index 0,
    index 1 raises. *)
Lemma ElementH2_gbasis_index_witness :
  ElementH2_gbasis inv1 norm0 cached square_mapping X1 (-1) None
  = ElementH2_gbasis inv1 norm0 cached square_mapping X1 (-1 + 1) None /\
  ElementH2_gbasis inv1 norm0 cached square_mapping X1 1 None
  = (cached, Raise IndexError).
Proof.
  assert (HV : V cached = Some (the (zeros []) (V cached)))
    by (apply some_the; vm_compute; reflexivity).
  assert (HS : shape (the (zeros []) (V cached)) = [2; 1; 1]%nat)
    by (vm_compute; reflexivity).
  split.
  - apply (proj1 (ElementH2_gbasis_index inv1 norm0 cached _ square_mapping
                    X1 (-1) None 2 1 HV HS)). lia.
  - apply (proj2 (ElementH2_gbasis_index inv1 norm0 cached _ square_mapping
                    X1 1 None 2 1 HV HS)
             ltac:(lia) ltac:(vm_compute; reflexivity) ltac:(lia)
             (unwrap (zeros []) (mapping_F square_mapping X1 None)) 1%nat
             [2%nat; 1%nat]);
      reflexivity.
Defined.

End H2IndexWitness.
